(** * The context store of the flow runtime: registry, scope resolver, facade

    A shallow embedding of [red/runtime/nodes/context/index.js].  The module
    keeps three variables ([contexts], [stores], [hasConfiguredStore]) next to
    [settings]; they are the fields of [state] here, threaded explicitly.
    JavaScript objects that the module enumerates with [for ... in] or
    [Object.keys] are association lists in enumeration order, with distinct
    keys; [contexts], whose order never shows, is a finite map.  Both
    [contexts] and [stores] are plain objects, so what is assigned to them
    under the name [__proto__] becomes their prototype: the fields
    [contexts_proto] and [stores_proto].  Objects with identity live
    behind references: context handles and the seed map in [heap], backend
    instances by their [inst_id].  One counter, [next], stamps everything
    made during a run; [trace] records the backends constructed and the
    lifecycle calls made on them. *)

From stdpp Require Import base strings list gmap.

Local Open Scope string_scope.

(** ** JavaScript values *)

Definition loc := nat.

Inductive method := MGet | MSet | MKeys.

(** The variables a facade closure captures in [createContext]. *)
Record closure := Closure {
  cl_stamp : nat;
  cl_scope : string;
  cl_seed : option loc;
  cl_seedKeys : list string
}.

Inductive jsval :=
  | VUndefined
  | VNull
  | VBool (b : bool)
  | VNum (n : Z)
  | VStr (s : string)
  | VObj (l : loc)
  | VFun (f : nat)
  | VMethod (m : method) (env : closure).

#[global] Instance method_eq_dec : EqDecision method.
Proof. solve_decision. Defined.
#[global] Instance closure_eq_dec : EqDecision closure.
Proof. solve_decision. Defined.
#[global] Instance jsval_eq_dec : EqDecision jsval.
Proof. solve_decision. Defined.

(** [!v] is false *)
Definition truthy (v : jsval) : bool :=
  match v with
  | VUndefined | VNull => false
  | VBool b => b
  | VNum n => negb (Z.eqb n 0)
  | VStr s => negb (String.eqb s "")
  | VObj _ | VFun _ | VMethod _ _ => true
  end.

(** [typeof v === 'function'] *)
Definition is_function (v : jsval) : bool :=
  match v with
  | VFun _ | VMethod _ _ => true
  | _ => false
  end.

(** [v === undefined] *)
Definition is_undefined (v : jsval) : bool :=
  match v with
  | VUndefined => true
  | _ => false
  end.

(** ** Objects with ordered own properties

    An object is the list of its own enumerable properties in enumeration
    order. *)

Module JsObject.

(** The value of a decimal digit. *)
Definition digit (c : Ascii.ascii) : option N :=
  let n := Ascii.N_of_ascii c in
  if (48 <=? n)%N && (n <=? 57)%N then Some (n - 48)%N else None.

Fixpoint numeral (acc : N) (s : string) : option N :=
  match s with
  | EmptyString => Some acc
  | String c s' =>
      match digit c with
      | Some d => numeral (10 * acc + d)%N s'
      | None => None
      end
  end.

(** The number an array-index name stands for: a decimal numeral without
    a leading zero, below [2^32 - 1]. *)
Definition array_index (k : string) : option N :=
  match k with
  | EmptyString => None
  | String c s' =>
      match digit c with
      | Some d =>
          if (d =? 0)%N && negb (String.eqb s' "") then None
          else
            match numeral d s' with
            | Some n => if (n <? 4294967295)%N then Some n else None
            | None => None
            end
      | None => None
      end
  end.

Section Props.
Context {V : Type}.

Fixpoint own (o : list (string * V)) (k : string) : option V :=
  match o with
  | [] => None
  | (k', v) :: o' => if decide (k = k') then Some v else own o' k
  end.

Definition hasOwnProperty (o : list (string * V)) (k : string) : bool :=
  match own o k with
  | Some _ => true
  | None => false
  end.

(** The property [k] of [o], which [o] has, set to [v] where it stands. *)
Fixpoint update (o : list (string * V)) (k : string) (v : V)
  : list (string * V) :=
  match o with
  | [] => []
  | (k', v') :: o' =>
      if decide (k = k') then (k, v) :: o' else (k', v') :: update o' k v
  end.

(** A new property named by the array index [n], put where the
    enumeration has it: after the array indices below [n], before
    everything else. *)
Fixpoint insert_index (o : list (string * V)) (n : N) (k : string) (v : V)
  : list (string * V) :=
  match o with
  | [] => [(k, v)]
  | (k', v') :: o' =>
      match array_index k' with
      | Some n' =>
          if (n' <? n)%N then (k', v') :: insert_index o' n k v
          else (k, v) :: o
      | None => (k, v) :: o
      end
  end.

(** [o[k] = v], as far as the own properties of [o] go: an existing
    property keeps its place; a new one is enumerated among the array
    indices when its name is one, and last otherwise.  An assignment to
    [__proto__] on an object without such a property of its own sets the
    prototype and makes no property. *)
Definition assign (o : list (string * V)) (k : string) (v : V)
  : list (string * V) :=
  if hasOwnProperty o k then update o k v
  else if decide (k = "__proto__") then o
  else
    match array_index k with
    | Some n => insert_index o n k v
    | None => o ++ [(k, v)]
    end.

(** [Object.keys(o)] *)
Definition keys (o : list (string * V)) : list string := o.*1.

End Props.
End JsObject.

(** ** Errors, backends, promises *)

Inductive message :=
  | MText (s : string)
  | MLog (key : string) (args : list (string * jsval))
  | MEngine.

Record error := Error { e_name : string; e_message : message }.

#[global] Instance message_eq_dec : EqDecision message.
Proof. solve_decision. Defined.
#[global] Instance error_eq_dec : EqDecision error.
Proof. solve_decision. Defined.

(** A synchronous completion: a returned value or a thrown error. *)
Inductive outcome (A : Type) :=
  | Return (a : A)
  | Throw (e : error).
Arguments Return {A} a.
Arguments Throw {A} e.

Definition callbackError : error := Error "Error" (MText "Callback must be a function").

(** What the engine throws on [undefined.m(...)] and on calling a
    non-function. *)
Definition typeError : error := Error "TypeError" MEngine.

Definition logError (key : string) (args : list (string * jsval)) : error :=
  Error "Error" (MLog key args).

(** The [config] object a backend factory is called with: the object of
    the configuration entry ([None] for the [{}] made on the spot) and the
    [settings] property that [copySettings] writes on it. *)
Record plugin_config := PluginConfig {
  pc_object : option nat;
  pc_settings : list (string * jsval)
}.

Inductive store_kind :=
  | Memory
  | Plugin (factory : nat) (config : plugin_config).

(** Modelled from the spec: a backend instance, as the backend contract
    has it.  It is an object with the methods [open], [close], [get],
    [set], [keys], [delete] and [clean] and no property called ["_"],
    ["default"] or [hasOwnProperty]; its [open], [close], [clean] and
    [delete] hand back an asynchronous operation that may fail, so the
    call itself returns.  [inst_id] is its identity. *)
Record inst := Inst { inst_id : nat; inst_kind : store_kind }.

(** What [stores[k]] yields: an instance, or something that is none
    ([undefined], or the prototype all objects start with). *)
Inductive sval :=
  | Store (i : inst)
  | NoStore.

#[global] Instance plugin_config_eq_dec : EqDecision plugin_config.
Proof. solve_decision. Defined.
#[global] Instance store_kind_eq_dec : EqDecision store_kind.
Proof. solve_decision. Defined.
#[global] Instance inst_eq_dec : EqDecision inst.
Proof. solve_decision. Defined.
#[global] Instance sval_eq_dec : EqDecision sval.
Proof. solve_decision. Defined.

Inductive backend_call :=
  | COpen (i : inst)
  | CClose (i : inst)
  | CClean (i : inst) (activeNodeIds : list string)
  | CDelete (i : inst) (scope : string).

Inductive event :=
  | EvNew (i : inst)
  | EvFactoryThrow (factory : nat)
  | EvCall (c : backend_call).

(** The asynchronous operations the module hands back. *)
Inductive promise :=
  | PResolved
  | PRejected (e : error)
  | PCall (c : backend_call)
  | PAll (cs : list backend_call).

#[global] Instance backend_call_eq_dec : EqDecision backend_call.
Proof. solve_decision. Defined.
#[global] Instance event_eq_dec : EqDecision event.
Proof. solve_decision. Defined.
#[global] Instance promise_eq_dec : EqDecision promise.
Proof. solve_decision. Defined.

(** ** Settings and module state *)

Inductive module_ref :=
  | ModName (name : string)
  | ModFactory (factory : nat).

(** An entry of [settings.contextStorage]: a string, or an object with an
    optional [module] and an optional [config]. *)
Inductive plugin_entry :=
  | EString (s : string)
  | EObject (module : option module_ref) (config : option nat).

(** The settings the module reads; [userDir], when given, is a path. *)
Record Settings := {
  functionGlobalContext : option loc;
  contextStorage : option (list (string * plugin_entry));
  userDir : option string
}.

Record state := State {
  settings : option Settings;
  contexts : gmap string loc;
  stores : list (string * sval);
  hasConfiguredStore : bool;
  heap : gmap loc (list (string * jsval));
  next : nat;
  trace : list event;
  contexts_proto : option loc;
  stores_proto : option inst
}.

(** The module as first loaded: lines 21-32. *)
Definition initial : state :=
  State None ∅ [] false ∅ 0 [] None None.

Definition defaultStore : string := "_".

Definition heap_obj (st : state) (l : loc) : list (string * jsval) :=
  default [] (heap st !! l).

Definition set_heap (st : state) (l : loc) (o : list (string * jsval)) : state :=
  State (settings st) (contexts st) (stores st) (hasConfiguredStore st)
        (<[l := o]> (heap st)) (next st) (trace st)
        (contexts_proto st) (stores_proto st).

Definition set_contexts (st : state) (c : gmap string loc) : state :=
  State (settings st) c (stores st) (hasConfiguredStore st)
        (heap st) (next st) (trace st) (contexts_proto st) (stores_proto st).

Definition set_stores (st : state) (s : list (string * sval)) : state :=
  State (settings st) (contexts st) s (hasConfiguredStore st)
        (heap st) (next st) (trace st) (contexts_proto st) (stores_proto st).

Definition set_settings (st : state) (s : Settings) : state :=
  State (Some s) (contexts st) (stores st) (hasConfiguredStore st)
        (heap st) (next st) (trace st) (contexts_proto st) (stores_proto st).

Definition set_hasConfiguredStore (st : state) (b : bool) : state :=
  State (settings st) (contexts st) (stores st) b
        (heap st) (next st) (trace st) (contexts_proto st) (stores_proto st).

Definition tick (st : state) : state :=
  State (settings st) (contexts st) (stores st) (hasConfiguredStore st)
        (heap st) (S (next st)) (trace st)
        (contexts_proto st) (stores_proto st).

Definition log_event (st : state) (e : event) : state :=
  State (settings st) (contexts st) (stores st) (hasConfiguredStore st)
        (heap st) (next st) (trace st ++ [e])
        (contexts_proto st) (stores_proto st).

Definition set_contexts_proto (st : state) (p : option loc) : state :=
  State (settings st) (contexts st) (stores st) (hasConfiguredStore st)
        (heap st) (next st) (trace st) p (stores_proto st).

Definition set_stores_proto (st : state) (p : option inst) : state :=
  State (settings st) (contexts st) (stores st) (hasConfiguredStore st)
        (heap st) (next st) (trace st) (contexts_proto st) p.

(** [stores = {}] *)
Definition reset_stores (st : state) : state :=
  set_stores_proto (set_stores st []) None.

(** [{}]: a new empty object. *)
Definition new_object (st : state) : loc * state :=
  (next st, tick (set_heap st (next st) [])).

(** [o.k = v] on the object behind [l]. *)
Definition set_prop (st : state) (l : loc) (k : string) (v : jsval) : state :=
  set_heap st l (JsObject.assign (heap_obj st l) k v).

(** Modelled from the spec: the builtin in-memory backend, whose module
    [./memory] is missing.  [memory()] and [new memory()] instantiate it:
    each call hands out a new instance and does not throw. *)
Definition memory (st : state) : inst * state :=
  let i := Inst (next st) Memory in
  (i, log_event (tick st) (EvNew i)).

(** ** createContext, lines 164-254 *)

Definition createContext (id : string) (seed : option loc) (st : state)
  : loc * state :=
  let '(obj, st) :=
    match seed with
    | Some l => (l, st)
    | None => new_object st
    end in
  let seedKeys :=
    match seed with
    | Some l => JsObject.keys (heap_obj st l)
    | None => []
    end in
  let env := Closure (next st) id seed seedKeys in
  let st := tick st in
  let st := set_prop st obj "get" (VMethod MGet env) in
  let st := set_prop st obj "set" (VMethod MSet env) in
  let st := set_prop st obj "keys" (VMethod MKeys env) in
  (obj, st).

(** ** init, lines 34-40 *)

Definition init (_settings : Settings) (st : state) : state :=
  let st := set_settings st _settings in
  let st := reset_stores st in
  let '(seed, st) :=
    match functionGlobalContext _settings with
    | Some l => (l, st)
    | None => new_object st
    end in
  let '(g, st) := createContext "global" (Some seed) st in
  let st := set_contexts st (<["global" := g]> (contexts st)) in
  let '(m, st) := memory st in
  set_stores st (JsObject.assign (stores st) "_" (Store m)).

(** ** The host: everything the module calls but does not define *)

Record get_reply := GetReply {
  g_ret : jsval;
  g_calls : list (jsval * jsval)
}.

(** What a backend's [keys] hands over: an array, or something else. *)
Inductive keys_val :=
  | KArray (ks : list jsval)
  | KOther (v : jsval).

Record keys_reply := KeysReply {
  k_ret : keys_val;
  k_calls : list (jsval * keys_val)
}.

(** [inherited k] is what a plain object yields for a property it does not
    own; [to_key] turns a non-string into a property name;
    [require_builtin n] is [require("./"+n)], [None] when it throws;
    [construct f config] is [Some msg] when the factory throws an error
    that prints as [msg], and [None] when it returns a new instance.  The
    [store_*] fields give, for one call of a backend method, the value it
    returns and the arguments with which it invokes a callback handed to
    it (the flag says whether one was). *)
Record Host := {
  inherited : string → jsval;
  to_key : jsval → string;
  require_builtin : string → option nat;
  construct : nat → plugin_config → option string;
  store_get : inst → string → string → bool → get_reply;
  store_set : inst → string → string → jsval → bool → list jsval;
  store_keys : inst → string → bool → keys_reply
}.

(** A facade call that reached backend [d_store]: the value returned to
    the caller and the invocations of the caller's callback. *)
Record done (R : Type) := Done {
  d_store : inst;
  d_ret : R;
  d_callback : list (jsval * R)
}.
Arguments Done {R} d_store d_ret d_callback.
Arguments d_store {R} d.
Arguments d_ret {R} d.
Arguments d_callback {R} d.

(** [stores[k]]: the property of that name, or for [__proto__] the
    prototype.  A backend that has become the prototype lends [stores]
    its methods, and none of the names read here. *)
Definition slot (st : state) (k : string) : sval :=
  match JsObject.own (stores st) k with
  | Some v => v
  | None =>
      if decide (k = "__proto__") then
        match stores_proto st with
        | Some i => Store i
        | None => NoStore
        end
      else NoStore
  end.

(** [stores[k] = v]: under the name [__proto__], unless [stores] has a
    property of its own called so, the assignment sets the prototype (an
    [undefined] is ignored) and adds no property. *)
Definition stores_assign (st : state) (k : string) (v : sval) : state :=
  if decide (k = "__proto__") then
    if JsObject.hasOwnProperty (stores st) k then
      set_stores st (JsObject.assign (stores st) k v)
    else
      match v with
      | Store i => set_stores_proto st (Some i)
      | NoStore => st
      end
  else set_stores st (JsObject.assign (stores st) k v).

(** [a.concat(k)] *)
Definition concat (a : list jsval) (k : keys_val) : list jsval :=
  match k with
  | KArray ks => a ++ ks
  | KOther v => a ++ [v]
  end.

(** [new Set(xs)], as the list of its members in insertion order. *)
Fixpoint set_add_all (seen xs : list jsval) : list jsval :=
  match xs with
  | [] => seen
  | x :: xs' =>
      set_add_all (if decide (x ∈ seen) then seen else seen ++ [x]) xs'
  end.

(** [Array.from(new Set(xs).keys())] *)
Definition array_from_set (xs : list jsval) : list jsval := set_add_all [] xs.

(** The character [:] *)
Definition colon : Ascii.ascii := Ascii.ascii_of_nat 58.

(** [id.split(":")[0]] *)
Fixpoint before_colon (s : string) : string :=
  match s with
  | EmptyString => EmptyString
  | String c s' =>
      if Ascii.eqb c colon then EmptyString else String c (before_colon s')
  end.

Section Runtime.
Variable H : Host.

Definition property_key (v : jsval) : string :=
  match v with
  | VStr s => s
  | _ => to_key H v
  end.

(** [seed[key]] *)
Definition read (st : state) (l : loc) (key : string) : jsval :=
  match JsObject.own (heap_obj st l) key with
  | Some v => v
  | None => inherited H key
  end.

(** ** getContextStorage, lines 148-161 *)

Definition getContextStorage (storage : jsval) (st : state) : outcome sval :=
  if JsObject.hasOwnProperty (stores st) (property_key storage) then
    Return (slot st (property_key storage))
  else if JsObject.hasOwnProperty (stores st) "default" then
    Return (slot st "default")
  else
    Throw (Error "ContextError"
             (MLog "context.error-use-undefined-storage" [("storage", storage)])).

(** ** The facade, lines 172-252 *)

(** Lines 173-185 of [get] and, word for word, 227-239 of [keys]: the
    backend the call goes to, and the callback once a function in the
    [storage] position has been moved over. *)
Definition select_store (storage callback : jsval) (st : state)
  : outcome (sval * jsval) :=
  if negb (truthy storage) && negb (truthy callback) then
    Return (slot st "_", callback)
  else
    let '(callback, storage) :=
      if is_function storage then (storage, VStr "default")
      else (callback, storage) in
    if negb (is_function callback) then Throw callbackError
    else
      match getContextStorage storage st with
      | Return context => Return (context, callback)
      | Throw e => Throw e
      end.

(** Lines 211-223 of [set]: the same, but for the test on [callback]. *)
Definition select_store_set (storage callback : jsval) (st : state)
  : outcome (sval * jsval) :=
  if negb (truthy storage) && negb (truthy callback) then
    Return (slot st "_", callback)
  else
    let '(callback, storage) :=
      if is_function storage then (storage, VStr "default")
      else (callback, storage) in
    if truthy callback && negb (is_function callback) then Throw callbackError
    else
      match getContextStorage storage st with
      | Return context => Return (context, callback)
      | Throw e => Throw e
      end.

Definition merge_value (st : state) (seed : loc) (key : string) (v : jsval)
  : jsval :=
  if is_undefined v then read st seed key else v.

Definition ctx_get (env : closure) (key : string) (storage callback : jsval)
    (st : state) : outcome (done jsval) :=
  match select_store storage callback st with
  | Throw e => Throw e
  | Return (NoStore, _) => Throw typeError
  | Return (Store context, callback) =>
      let scope := cl_scope env in
      match cl_seed env with
      | Some seed =>
          if truthy callback then
            let r := store_get H context scope key true in
            Return (Done context VUndefined
                      (prod_map id (merge_value st seed key) <$> g_calls r))
          else
            let storeValue := g_ret (store_get H context scope key false) in
            Return (Done context (merge_value st seed key storeValue) [])
      | None =>
          let r := store_get H context scope key (is_function callback) in
          Return (Done context (g_ret r)
                    (if is_function callback then g_calls r else []))
      end
  end.

Definition ctx_set (env : closure) (key : string) (value storage callback : jsval)
    (st : state) : outcome (inst * list jsval) :=
  match select_store_set storage callback st with
  | Throw e => Throw e
  | Return (NoStore, _) => Throw typeError
  | Return (Store context, callback) =>
      let calls :=
        store_set H context (cl_scope env) key value (is_function callback) in
      Return (context, if is_function callback then calls else [])
  end.

Definition merge_keys (env : closure) (keys : keys_val) : keys_val :=
  KArray (array_from_set (concat (VStr <$> cl_seedKeys env) keys)).

Definition ctx_keys (env : closure) (storage callback : jsval) (st : state)
  : outcome (done keys_val) :=
  match select_store storage callback st with
  | Throw e => Throw e
  | Return (NoStore, _) => Throw typeError
  | Return (Store context, callback) =>
      let scope := cl_scope env in
      match cl_seed env with
      | Some seed =>
          if truthy callback then
            let r := store_keys H context scope true in
            Return (Done context (KOther VUndefined)
                      (prod_map id (merge_keys env) <$> k_calls r))
          else
            let keys := k_ret (store_keys H context scope false) in
            Return (Done context (merge_keys env keys) [])
      | None =>
          let r := store_keys H context scope (is_function callback) in
          Return (Done context (k_ret r)
                    (if is_function callback then k_calls r else []))
      end
  end.

(** The closure stored in property [name] of the handle [l]. *)
Definition method_env (st : state) (l : loc) (name : string) (m : method)
  : option closure :=
  match JsObject.own (heap_obj st l) name with
  | Some (VMethod m' env) => if decide (m = m') then Some env else None
  | _ => None
  end.

(** [contexts['global'].get(key, storage, callback)] *)
Definition global_get (key : string) (storage callback : jsval) (st : state)
  : outcome (done jsval) :=
  match contexts st !! "global" with
  | Some g =>
      match method_env st g "get" MGet with
      | Some env => ctx_get env key storage callback st
      | None => Throw typeError
      end
  | None => Throw typeError
  end.

(** [contexts['global'].keys(storage, callback)] *)
Definition global_keys (storage callback : jsval) (st : state)
  : outcome (done keys_val) :=
  match contexts st !! "global" with
  | Some g =>
      match method_env st g "keys" MKeys with
      | Some env => ctx_keys env storage callback st
      | None => Throw typeError
      end
  | None => Throw typeError
  end.
End Runtime.

(** ** getContext, lines 256-271 *)

(** [if (flowId)] *)
Definition given (flowId : option string) : bool :=
  match flowId with
  | Some f => truthy (VStr f)
  | None => false
  end.

Definition composite (localId : string) (flowId : option string) : string :=
  match flowId with
  | Some f => if given flowId then localId +:+ ":" +:+ f else localId
  | None => localId
  end.

(** [contexts.hasOwnProperty(id)], together with [contexts[id]] when it
    holds.  [contexts] is a plain object, so [hasOwnProperty] is found by
    property lookup: once a Context is cached under that name, the call
    applies a Context, which is no function.  A prototype that
    [contexts] was given is a handle made by [createContext]; it carries
    [get], [set], [keys], [flow] and [global], and nothing called
    [hasOwnProperty]. *)
Definition contexts_own (st : state) (id : string) : outcome (option loc) :=
  match contexts st !! "hasOwnProperty" with
  | Some _ => Throw typeError
  | None => Return (contexts st !! id)
  end.

(** [contexts[id] = c]: what is assigned under [__proto__] becomes the
    prototype of [contexts] and no property of its own, unless there is
    such a property already. *)
Definition contexts_assign (st : state) (id : string) (c : loc) : state :=
  if decide (id = "__proto__") then
    match contexts st !! id with
    | Some _ => set_contexts st (<[id := c]> (contexts st))
    | None => set_contexts_proto st (Some c)
    end
  else set_contexts st (<[id := c]> (contexts st)).

(** [contexts['global']]: the property of [contexts], or else that of its
    prototype; the prototype all objects start with has none. *)
Definition global_ref (st : state) : jsval :=
  match contexts st !! "global" with
  | Some g => VObj g
  | None =>
      match contexts_proto st with
      | Some p =>
          match JsObject.own (heap_obj st p) "global" with
          | Some v => v
          | None => VUndefined
          end
      | None => VUndefined
      end
  end.

(** The inner call [getContext(flowId)]: no flow id of its own. *)
Definition getContextOf (localId : string) (st : state) : outcome loc * state :=
  let contextId := localId in
  match contexts_own st contextId with
  | Throw e => (Throw e, st)
  | Return (Some c) => (Return c, st)
  | Return None =>
      let '(newContext, st) := createContext contextId None st in
      let st := set_prop st newContext "global" (global_ref st) in
      let st := contexts_assign st contextId newContext in
      (Return newContext, st)
  end.

Definition getContext (localId : string) (flowId : option string) (st : state)
  : outcome loc * state :=
  let contextId := composite localId flowId in
  match contexts_own st contextId with
  | Throw e => (Throw e, st)
  | Return (Some c) => (Return c, st)
  | Return None =>
      let '(newContext, st) := createContext contextId None st in
      let linked :=
        match flowId with
        | Some f =>
            if given flowId then
              match getContextOf f st with
              | (Return flow, st) =>
                  (Return (), set_prop st newContext "flow" (VObj flow))
              | (Throw e, st) => (Throw e, st)
              end
            else (Return (), st)
        | None => (Return (), st)
        end in
      match linked with
      | (Throw e, st) => (Throw e, st)
      | (Return _, st) =>
          let st := set_prop st newContext "global" (global_ref st) in
          let st := contexts_assign st contextId newContext in
          (Return newContext, st)
      end
  end.

(** ** deleteContext, clean, close: lines 273-313 *)

(** Calls one method on what every name in [stores] is bound to, in
    enumeration order; a name bound to something that is no backend makes
    the engine throw.  [stores.hasOwnProperty] is the builtin here and in
    [getContextStorage]: neither [init] nor [load] binds that name. *)
Fixpoint call_all (mk : inst → backend_call) (ss : list (string * sval))
    (st : state) : outcome (list backend_call) * state :=
  match ss with
  | [] => (Return [], st)
  | (_, Store i) :: ss' =>
      match call_all mk ss' (log_event st (EvCall (mk i))) with
      | (Return cs, st) => (Return (mk i :: cs), st)
      | (Throw e, st) => (Throw e, st)
      end
  | (_, NoStore) :: _ => (Throw typeError, st)
  end.

Definition deleteContext (id : string) (flowId : option string) (st : state)
  : outcome promise * state :=
  if negb (hasConfiguredStore st) then
    let contextId := composite id flowId in
    let st := set_contexts st (delete contextId (contexts st)) in
    match slot st "_" with
    | Store i =>
        (Return (PCall (CDelete i contextId)),
         log_event st (EvCall (CDelete i contextId)))
    | NoStore => (Throw typeError, st)
    end
  else (Return PResolved, st).

(** [flowConfig.allNodes] is a plain object, given by its own properties;
    what it holds under a node id is a node, an object and no function. *)
Record FlowConfig := { allNodes : list (string * nat) }.

(** [flowConfig.allNodes.hasOwnProperty(k)]: the method is found by
    property lookup, so with a node called [hasOwnProperty] it is that
    node, an object, which gets applied. *)
Definition allNodes_hasOwnProperty (flowConfig : FlowConfig) (k : string)
  : outcome bool :=
  if JsObject.hasOwnProperty (allNodes flowConfig) "hasOwnProperty" then
    Throw typeError
  else Return (JsObject.hasOwnProperty (allNodes flowConfig) k).

(** The body of the loop over [contexts] in [clean], lines 295-300. *)
Definition evict (flowConfig : FlowConfig) (id : string) (st : state)
  : outcome state :=
  match contexts_own st id with
  | Throw e => Throw e
  | Return None => Return st
  | Return (Some _) =>
      if bool_decide (id ≠ "global") then
        match allNodes_hasOwnProperty flowConfig (before_colon id) with
        | Throw e => Throw e
        | Return true => Return st
        | Return false => Return (set_contexts st (delete id (contexts st)))
        end
      else Return st
  end.

(** The loop itself.  The names [for ... in] adds from the prototype of
    [contexts] fail the [hasOwnProperty] test and change nothing, so the
    loop runs over the own names. *)
Fixpoint evict_each (flowConfig : FlowConfig) (ids : list string) (st : state)
  : outcome () * state :=
  match ids with
  | [] => (Return (), st)
  | id :: ids' =>
      match evict flowConfig id st with
      | Throw e => (Throw e, st)
      | Return st' => evict_each flowConfig ids' st'
      end
  end.

Definition clean (flowConfig : FlowConfig) (st : state)
  : outcome promise * state :=
  let ids := JsObject.keys (allNodes flowConfig) in
  match call_all (λ i, CClean i ids) (stores st) st with
  | (Throw e, st) => (Throw e, st)
  | (Return promises, st) =>
      match evict_each flowConfig (map_to_list (contexts st)).*1 st with
      | (Throw e, st) => (Throw e, st)
      | (Return _, st) => (Return (PAll promises), st)
      end
  end.

Definition close (st : state) : outcome promise * state :=
  match call_all CClose (stores st) st with
  | (Throw e, st) => (Throw e, st)
  | (Return promises, st) => (Return (PAll promises), st)
  end.

(** ** copySettings, lines 140-146 *)

(** [settings[setting]], for the settings this model carries: a path, or
    nothing. *)
Definition setting (s : Settings) (name : string) : option string :=
  if decide (name = "userDir") then userDir s else None.

(** [clone(v)] of a string or of [undefined]: that value. *)
Definition clone (v : option string) : jsval :=
  match v with
  | Some x => VStr x
  | None => VUndefined
  end.

(** [config] is [plugins[pluginName].config || {}].  The object is not
    one of [heap]: the module hands it to the factory and never reads it
    again, so the write of [config.settings] shows in what the factory
    is given. *)
Definition copySettings (config : option nat) (s : Settings) : plugin_config :=
  let copy := ["userDir"] in
  PluginConfig config ((λ name, (name, clone (setting s name))) <$> copy).

(** ** load, lines 42-138 *)

(** The loop variables of [load] that outlive one pass. *)
Record loading := Loading {
  l_state : state;
  defaultIsAlias : bool;
  defaultName : option string
}.

(** [!defaultName] is false *)
Definition named (defaultName : option string) : bool :=
  match defaultName with
  | Some n => truthy (VStr n)
  | None => false
  end.

Section Loading.
Variable H : Host.

(** One pass of the loop over [plugins], lines 52-98; [inr] is an early
    [return reject(...)]. *)
Definition load_plugin (s : Settings) (plugins : list (string * plugin_entry))
    (hasDefault : bool) (pluginName : string) (acc : loading)
  : loading + error * state :=
  let st := l_state acc in
  match JsObject.own plugins pluginName with
  | None => inl acc
  | Some entry =>
      if decide (pluginName = "_") then inl acc
      else
        match entry with
        | EString alias =>
            if decide (pluginName = "default") then
              if negb (JsObject.hasOwnProperty plugins alias) then
                inr (logError "context.error-invalid-default-module"
                       [("storage", VStr alias)], st)
              else inl (Loading st true (defaultName acc))
            else
              inr (logError "context.error-module-not-defined"
                     [("storage", VStr pluginName)], st)
        | EObject None _ =>
            inr (logError "context.error-module-not-defined"
                   [("storage", VStr pluginName)], st)
        | EObject (Some module) config =>
            let defaultName :=
              if negb hasDefault && negb (named (defaultName acc))
              then Some pluginName else defaultName acc in
            let plugin :=
              match module with
              | ModName n =>
                  match require_builtin H n with
                  | Some f => inl f
                  | None =>
                      inr (logError "context.error-module-not-loaded"
                             [("module", VStr n)])
                  end
              | ModFactory f => inl f
              end in
            match plugin with
            | inr e => inr (e, st)
            | inl f =>
                match construct H f (copySettings config s) with
                | Some msg =>
                    inr (logError "context.error-loading-module"
                           [("module", VStr pluginName); ("message", VStr msg)],
                         log_event st (EvFactoryThrow f))
                | None =>
                    let i := Inst (next st) (Plugin f (copySettings config s)) in
                    let st := log_event (tick st) (EvNew i) in
                    let st := stores_assign st pluginName (Store i) in
                    inl (Loading st (defaultIsAlias acc) defaultName)
                end
            end
        end
  end.

Fixpoint load_plugins (s : Settings) (plugins : list (string * plugin_entry))
    (hasDefault : bool) (names : list string) (acc : loading)
  : loading + error * state :=
  match names with
  | [] => inl acc
  | pluginName :: names' =>
      match load_plugin s plugins hasDefault pluginName acc with
      | inl acc' => load_plugins s plugins hasDefault names' acc'
      | inr r => inr r
      end
  end.

(** Lines 108-121: which store [default] and [_] name. *)
Definition resolve_default (plugins : list (string * plugin_entry))
    (hasDefault : bool) (acc : loading) : state :=
  let st := l_state acc in
  if hasDefault then
    let st :=
      if defaultIsAlias acc then
        let target :=
          match JsObject.own plugins "default" with
          | Some (EString alias) => slot st alias
          | _ => NoStore
          end in
        set_stores st (JsObject.assign (stores st) "default" target)
      else st in
    set_stores st (JsObject.assign (stores st) "_" (slot st "default"))
  else
    match defaultName acc with
    | Some n =>
        if named (defaultName acc) then
          let st :=
            set_stores st (JsObject.assign (stores st) "default" (slot st n)) in
          set_stores st (JsObject.assign (stores st) "_" (slot st "default"))
        else st
    | None => st
    end.

(** Lines 48-123, the part guarded by [if (plugins)]: the promises
    collected, or a rejection.  [plugins.hasOwnProperty] is found by
    property lookup: with an entry called [hasOwnProperty] the call of
    line 49 applies that entry, a string or an object, and the engine's
    error rejects the promise. *)
Definition load_configured (s : Settings) (st : state)
  : list backend_call * state + error * state :=
  match contextStorage s with
  | None => inl ([], st)
  | Some plugins =>
      if JsObject.hasOwnProperty plugins "hasOwnProperty" then
        inr (typeError, st)
      else
      let hasDefault := JsObject.hasOwnProperty plugins "default" in
      match load_plugins s plugins hasDefault (JsObject.keys plugins)
                         (Loading st false None) with
      | inr r => inr r
      | inl acc =>
          match call_all COpen (stores (l_state acc)) (l_state acc) with
          | (Throw e, st) => inr (e, st)
          | (Return promises, st) =>
              inl (promises,
                   resolve_default plugins hasDefault
                     (Loading st (defaultIsAlias acc) (defaultName acc)))
          end
      end
  end.

Definition load (st : state) : promise * state :=
  match settings st with
  | None => (PRejected typeError, st)
  | Some s =>
      match load_configured s st with
      | inr (e, st) => (PRejected e, st)
      | inl ([], st) =>
          let '(m, st) := memory st in
          let st := set_stores st (JsObject.assign (stores st) "_" (Store m)) in
          let st :=
            set_stores st (JsObject.assign (stores st) "default" (slot st "_")) in
          match slot st "_" with
          | Store i => (PAll [COpen i], log_event st (EvCall (COpen i)))
          | NoStore => (PRejected typeError, st)
          end
      | inl (promises, st) =>
          (PAll promises, set_hasConfiguredStore st true)
      end
  end.
End Loading.

(** ** Concrete runs

    A host whose backends hold nothing, a configured initial-values map
    with one entry, and the settings used in the examples below. *)

Definition empty_host : Host := {|
  inherited := λ _, VUndefined;
  to_key := λ _, "";
  require_builtin := λ _, None;
  construct := λ _ _, None;
  store_get := λ _ _ _ _, GetReply VUndefined [(VNull, VUndefined)];
  store_set := λ _ _ _ _ _, [VNull];
  store_keys := λ _ _ _, KeysReply (KArray []) [(VNull, KArray [])]
|}.

(** The heap holds the object [{keys: 5}] at reference 0. *)
Definition booted : state :=
  State None ∅ [] false {[ 0 := [("keys", VNum 5)] ]} 1 [] None None.

(** [{functionGlobalContext: {keys: 5}}] *)
Definition plain_settings : Settings := {|
  functionGlobalContext := Some 0;
  contextStorage := None;
  userDir := None
|}.

(** [{contextStorage: {a: {module: f3}, default: "a"}}] *)
Definition aliased_settings : Settings := {|
  functionGlobalContext := Some 0;
  contextStorage :=
    Some [("a", EObject (Some (ModFactory 3)) None); ("default", EString "a")];
  userDir := None
|}.

(** [{contextStorage: {a: {module: f3}, default: "missing"}}] *)
Definition dangling_settings : Settings := {|
  functionGlobalContext := Some 0;
  contextStorage :=
    Some [("a", EObject (Some (ModFactory 3)) None);
          ("default", EString "missing")];
  userDir := None
|}.

(** [init(plain); load()] *)
Definition plain_run : state := (load empty_host (init plain_settings booted)).2.

(** [init(aliased); load(); get("n1","f1"); init(plain)] *)
Definition reinit_run : state :=
  init plain_settings
    (getContext "n1" (Some "f1")
       (load empty_host (init aliased_settings booted)).2).2.

(** ** How an operation returned by the module settles *)

Inductive status := Pending | Fulfilled | Rejected.

#[global] Instance status_eq_dec : EqDecision status.
Proof. solve_decision. Defined.

(** [Promise.all]: rejected as soon as one member is, fulfilled when all
    are. *)
Definition all_status (f : backend_call → status) (cs : list backend_call)
  : status :=
  if existsb (λ c, bool_decide (f c = Rejected)) cs then Rejected
  else if forallb (λ c, bool_decide (f c = Fulfilled)) cs then Fulfilled
  else Pending.

Definition promise_status (f : backend_call → status) (p : promise) : status :=
  match p with
  | PResolved => Fulfilled
  | PRejected _ => Rejected
  | PCall c => f c
  | PAll cs => all_status f cs
  end.

(** ** When the facade refuses a call

    The two tests on [callback], read off lines 174-183 (and 228-237) and
    lines 212-221. *)

Definition strict_misuse (storage callback : jsval) : bool :=
  (truthy storage || truthy callback)
  && negb (is_function storage) && negb (is_function callback).

Definition lenient_misuse (storage callback : jsval) : bool :=
  negb (is_function storage) && truthy callback && negb (is_function callback).

(** The property name under which [createContext] stores each method. *)
Definition method_name (m : method) : string :=
  match m with
  | MGet => "get"
  | MSet => "set"
  | MKeys => "keys"
  end.

(** The seed that [init] hands to [createContext]: the configured map, or
    a new empty object. *)
Definition seed_of (s : Settings) (st : state) : loc :=
  match functionGlobalContext s with
  | Some l => l
  | None => next st
  end.

Definition configured_map (s : Settings) (st : state) : list (string * jsval) :=
  match functionGlobalContext s with
  | Some l => heap_obj st l
  | None => []
  end.

(** The state in which [init] calls [createContext]: settings stored,
    [stores] emptied, the seed object in place. *)
Definition with_seed (s : Settings) (st : state) : state :=
  match functionGlobalContext s with
  | Some _ => reset_stores (set_settings st s)
  | None => (new_object (reset_stores (set_settings st s))).2
  end.

(** ** What a full reset by [init] would mean

    Only ["_"] in [stores], bound to an in-memory backend; only ["global"]
    in [contexts]; the flag back to false. *)
Definition fully_reset (st : state) : Prop :=
  (∃ i, stores st = [("_", Store i)] ∧ inst_kind i = Memory)
  ∧ (∀ id, id ≠ "global" → contexts st !! id = None)
  ∧ hasConfiguredStore st = false.

(** The Context cached under [id], or else [l]. *)
Definition cached_or (st : state) (id : string) (l : loc) : loc :=
  match contexts st !! id with
  | Some c => c
  | None => l
  end.

(** An id without [:]. *)
Definition no_colon (a : string) : Prop := ∀ x y, a ≠ x +:+ ":" +:+ y.

(** ** Reading [clean]

    The instances bound in [stores], one per slot, in enumeration order;
    and the test of lines 295-297 that dooms a cached Context. *)
Definition instances (ss : list (string * sval)) : list inst :=
  omap (λ p, match p.2 with Store i => Some i | NoStore => None end) ss.

Definition doomed (flowConfig : FlowConfig) (id : string) : bool :=
  bool_decide (id ≠ "global")
  && negb (JsObject.hasOwnProperty (allNodes flowConfig) (before_colon id)).

(** [init(plain); load(); get("n1","f1")] *)
Definition busy_run : state := (getContext "n1" (Some "f1") plain_run).2.

(** A flow configuration whose only node is ["n2"]. *)
Definition other_flow : FlowConfig := {| allNodes := [("n2", 0)] |}.

(** One whose only node is ["n1"], and one with a node called
    ["hasOwnProperty"]. *)
Definition live_flow : FlowConfig := {| allNodes := [("n1", 0)] |}.

Definition shadowing_flow : FlowConfig :=
  {| allNodes := [("hasOwnProperty", 0)] |}.

(** [key] read from the configured initial-values map, before [init]
    touches it. *)
Definition configured_value (H : Host) (s : Settings) (st : state)
    (key : string) : jsval :=
  match JsObject.own (configured_map s st) key with
  | Some v => v
  | None => inherited H key
  end.

(** The closure of the global Context in the concrete runs. *)
Definition global_env : closure := Closure 1 "global" (Some 0) ["keys"].

(** [init(plain); init(plain)], and
    [init(plain); load(); delete("global"); get("global")] *)
Definition twice_init_run : state :=
  init plain_settings (init plain_settings booted).

Definition regot_global_run : state :=
  (getContext "global" None (deleteContext "global" None plain_run).2).2.

(** The claim of C9 read on one bare call of [keys()] on the Context
    cached under ["global"]: it hands over an array without duplicates
    whose members are the keys [static] of the configured initial-values
    map and what the backend reported. *)
Definition keys_is_union (H : Host) (static : list string) (st : state) : Prop :=
  ∃ d ks reported,
    global_keys H VUndefined VUndefined st = Return d
    ∧ d_ret d = KArray ks
    ∧ k_ret (store_keys H (d_store d) "global" false) = KArray reported
    ∧ NoDup ks
    ∧ ∀ x, x ∈ ks ↔ x ∈ VStr <$> static ∨ x ∈ reported.

(** Two states with the same cache of Contexts and the same objects. *)
Definition same_objects (st st' : state) : Prop :=
  contexts st' = contexts st ∧ heap st' = heap st ∧ settings st' = settings st.

(** The claim of C2, read on one call: a callback was supplied and it is
    not callable. *)
Definition supplied_not_callable (callback : jsval) : Prop :=
  callback ≠ VUndefined ∧ is_function callback = false.

(** ** Reading [load]

    The name the loop leaves in [defaultName] when no ["default"] is
    configured: the first that is neither ["_"] nor the empty string. *)
Definition first_named (names : list string) : option string :=
  head (filter (λ k, k ≠ "_" ∧ k ≠ "") names).

(** The state a successful pass of the loop over entry [k] leaves: the
    instance made by factory [f], registered under [k]. *)
Definition registered (s : Settings) (k : string) (f : nat)
    (config : option nat) (st : state) : state :=
  let i := Inst (next st) (Plugin f (copySettings config s)) in
  let st1 := log_event (tick st) (EvNew i) in
  stores_assign st1 k (Store i).

(** [{contextStorage: {b: {module: f3}, a: {module: f4}}}] *)
Definition two_stores_settings : Settings := {|
  functionGlobalContext := Some 0;
  contextStorage :=
    Some [("b", EObject (Some (ModFactory 3)) None);
          ("a", EObject (Some (ModFactory 4)) (Some 1))];
  userDir := Some "/data"
|}.

(** [{contextStorage: {}}] *)
Definition empty_config_settings : Settings := {|
  functionGlobalContext := Some 0;
  contextStorage := Some [];
  userDir := None
|}.

(** A slot bound to an instance that a configured factory made. *)
Definition plugin_slot (v : sval) : Prop :=
  ∃ i f config, v = Store i ∧ inst_kind i = Plugin f config.

(** What the loop of [load] records: a factory that threw, or one that
    made a backend from a [config] whose [settings] is exactly the copy of
    [userDir]. *)
Definition from_factory (s : Settings) (ev : event) : Prop :=
  match ev with
  | EvNew (Inst _ (Plugin _ config)) =>
      pc_settings config = [("userDir", clone (userDir s))]
  | EvFactoryThrow _ => True
  | _ => False
  end.

(** A property of [stores] holding an instance that a configured factory
    made. *)
Definition own_plugin (st : state) (n : string) : Prop :=
  ∃ i f config,
    JsObject.own (stores st) n = Some (Store i) ∧ inst_kind i = Plugin f config.

(** The error [getContextStorage] throws for [storage]. *)
Definition unknownStorage (storage : jsval) : error :=
  Error "ContextError"
    (MLog "context.error-use-undefined-storage" [("storage", storage)]).

(** * Properties *)

(** ** Objects *)

Module JsObjectFacts.
Import JsObject.
Section Props.
Context {V : Type}.
Implicit Types (o : list (string * V)) (k : string) (v : V).

Lemma own_update_eq o k v : is_Some (own o k) → own (update o k v) k = Some v.
Proof.
  induction o as [|[k' v'] o IH]; simpl; [by intros [? ?]|].
  destruct (decide (k = k')) as [->|Hne]; simpl.
  - by rewrite decide_True.
  - by rewrite decide_False.
Qed.

Lemma own_update_ne o k k' v : k ≠ k' → own (update o k v) k' = own o k'.
Proof.
  intros Hne. induction o as [|[k0 v0] o IH]; simpl; [done|].
  destruct (decide (k = k0)) as [->|Hk]; simpl.
  - by rewrite !decide_False.
  - destruct (decide (k' = k0)); done.
Qed.

Lemma own_insert_index_eq o n k v :
  own o k = None → own (insert_index o n k v) k = Some v.
Proof.
  induction o as [|[k' v'] o IH]; simpl.
  - by rewrite decide_True.
  - destruct (decide (k = k')) as [->|Hne]; [done|]. intros Hnone.
    destruct (array_index k') as [n'|]; [destruct (n' <? n)%N|]; simpl;
      rewrite ?decide_True by done; rewrite ?decide_False by done; auto.
Qed.

Lemma own_insert_index_ne o n k k' v :
  k ≠ k' → own (insert_index o n k v) k' = own o k'.
Proof.
  intros Hne. induction o as [|[k0 v0] o IH]; simpl.
  - by rewrite decide_False.
  - destruct (array_index k0) as [n'|]; [destruct (n' <? n)%N|]; simpl;
      rewrite ?(decide_False (P := k' = k)) by done; try done.
    by rewrite IH.
Qed.

Lemma own_app_eq o k v : own o k = None → own (o ++ [(k, v)]) k = Some v.
Proof.
  induction o as [|[k' v'] o IH]; simpl.
  - by rewrite decide_True.
  - destruct (decide (k = k')); [done|auto].
Qed.

Lemma own_app_ne o k k' v : k ≠ k' → own (o ++ [(k, v)]) k' = own o k'.
Proof.
  intros Hne. induction o as [|[k0 v0] o IH]; simpl.
  - by rewrite decide_False.
  - by rewrite IH.
Qed.

Lemma own_assign_eq o k v :
  k ≠ "__proto__" ∨ is_Some (own o k) → own (assign o k v) k = Some v.
Proof.
  intros Hk. unfold assign, hasOwnProperty.
  destruct (own o k) as [old|] eqn:Hown.
  - apply own_update_eq. by rewrite Hown.
  - destruct Hk as [Hk|[? ?]]; [|done]. rewrite decide_False by done.
    destruct (array_index k).
    + by apply own_insert_index_eq.
    + by apply own_app_eq.
Qed.

Lemma own_assign_ne o k k' v : k ≠ k' → own (assign o k v) k' = own o k'.
Proof.
  intros Hne. unfold assign.
  destruct (hasOwnProperty o k); [by apply own_update_ne|].
  destruct (decide (k = "__proto__")); [done|].
  destruct (array_index k).
  - by apply own_insert_index_ne.
  - by apply own_app_ne.
Qed.

(** An assignment to [__proto__] adds no property. *)
Lemma assign_proto o v :
  own o "__proto__" = None → assign o "__proto__" v = o.
Proof. intros Hown. unfold assign, hasOwnProperty. by rewrite Hown. Qed.

Lemma own_Some_keys o k v : own o k = Some v → k ∈ keys o.
Proof.
  induction o as [|[k0 v0] o IH]; simpl; [done|].
  destruct (decide (k = k0)) as [->|Hk]; intros Hv.
  - apply list_elem_of_here.
  - apply list_elem_of_further. by apply IH.
Qed.

Lemma own_None_keys o k : own o k = None → k ∉ keys o.
Proof.
  induction o as [|[k0 v0] o IH]; simpl.
  - intros _ Hin. by apply elem_of_nil in Hin.
  - destruct (decide (k = k0)) as [->|Hk]; [done|].
    intros Hn Hin. apply elem_of_cons in Hin as [->|Hin]; [done|].
    by apply IH.
Qed.

Lemma hasOwnProperty_keys o k : hasOwnProperty o k = true ↔ k ∈ keys o.
Proof.
  unfold hasOwnProperty. destruct (own o k) as [v|] eqn:Hown.
  - split; [intros _; by eapply own_Some_keys | done].
  - split; [done | intros Hin; by apply own_None_keys in Hown].
Qed.
End Props.
End JsObjectFacts.

(** ** getContextStorage *)

Lemma slot_own (st : state) (k : string) (s : sval) :
  JsObject.own (stores st) k = Some s → slot st k = s.
Proof. unfold slot. by intros ->. Qed.



(** ** Misuse of the facade *)

Lemma is_function_truthy (v : jsval) : is_function v = true → truthy v = true.
Proof. by destruct v. Qed.

Lemma getContextStorage_not_misuse (H : Host) (storage : jsval) (st : state) :
  getContextStorage H storage st ≠ Throw callbackError.
Proof.
  unfold getContextStorage. repeat case_match; discriminate.
Qed.

Lemma resolved_not_misuse (H : Host) (storage callback : jsval) (st : state) :
  match getContextStorage H storage st with
  | Return context => Return (context, callback)
  | Throw e => Throw e
  end ≠ Throw callbackError.
Proof.
  pose proof (getContextStorage_not_misuse H storage st) as Hg.
  destruct (getContextStorage H storage st); congruence.
Qed.

Ltac misuse_cases storage callback :=
  let Efs := fresh "Efs" in
  let Efc := fresh "Efc" in
  let Ets := fresh "Ets" in
  let Etc := fresh "Etc" in
  destruct (is_function storage) eqn:Efs;
  [ rewrite (is_function_truthy _ Efs) | destruct (truthy storage) eqn:Ets ];
  (destruct (is_function callback) eqn:Efc;
   [ rewrite (is_function_truthy _ Efc) | destruct (truthy callback) eqn:Etc ]);
  simpl; rewrite ?Efs, ?Efc, ?Ets, ?Etc; simpl.

Lemma select_store_misuse (H : Host) (storage callback : jsval) (st : state) :
  select_store H storage callback st = Throw callbackError
  ↔ strict_misuse storage callback = true.
Proof.
  unfold select_store, strict_misuse.
  misuse_cases storage callback;
    try (split; [discriminate | discriminate]); try (split; reflexivity);
    (split; [| discriminate]);
    intros Hthrow; by apply resolved_not_misuse in Hthrow.
Qed.

Lemma select_store_set_misuse (H : Host) (storage callback : jsval) (st : state) :
  select_store_set H storage callback st = Throw callbackError
  ↔ lenient_misuse storage callback = true.
Proof.
  unfold select_store_set, lenient_misuse.
  misuse_cases storage callback;
    try (split; [discriminate | discriminate]); try (split; reflexivity);
    (split; [| discriminate]);
    intros Hthrow; by apply resolved_not_misuse in Hthrow.
Qed.

(** C2, as the code has it: [get] and [keys] throw the misuse error exactly
    when the call is not the bare one (no storage, no callback) and, once a
    function in the storage position has been taken as the callback, there
    is no callable callback; [set] throws it exactly when a callback that
    is truthy and not callable is left.  So naming a backend without any
    callback is refused by [get] and [keys] and accepted by [set]. *)
Theorem misuse_exactly (H : Host) (env : closure) (key : string)
    (value storage callback : jsval) (st : state) :
  (ctx_get H env key storage callback st = Throw callbackError
   ↔ strict_misuse storage callback = true)
  ∧ (ctx_keys H env storage callback st = Throw callbackError
     ↔ strict_misuse storage callback = true)
  ∧ (ctx_set H env key value storage callback st = Throw callbackError
     ↔ lenient_misuse storage callback = true)
  ∧ (∀ name, truthy (VStr name) = true →
       ctx_get H env key (VStr name) VUndefined st = Throw callbackError
       ∧ ctx_keys H env (VStr name) VUndefined st = Throw callbackError
       ∧ ctx_set H env key value (VStr name) VUndefined st ≠ Throw callbackError).
Proof.
  assert (Hget : ∀ storage callback,
    ctx_get H env key storage callback st = Throw callbackError
    ↔ strict_misuse storage callback = true).
  { intros s c. rewrite <- (select_store_misuse H s c st). unfold ctx_get.
    destruct (select_store H s c st) as [[[i|] cb]|e]; simpl.
    - repeat case_match; split; discriminate.
    - split; discriminate.
    - split; intros [= ->]; reflexivity. }
  assert (Hkeys : ∀ storage callback,
    ctx_keys H env storage callback st = Throw callbackError
    ↔ strict_misuse storage callback = true).
  { intros s c. rewrite <- (select_store_misuse H s c st). unfold ctx_keys.
    destruct (select_store H s c st) as [[[i|] cb]|e]; simpl.
    - repeat case_match; split; discriminate.
    - split; discriminate.
    - split; intros [= ->]; reflexivity. }
  assert (Hset : ∀ storage callback,
    ctx_set H env key value storage callback st = Throw callbackError
    ↔ lenient_misuse storage callback = true).
  { intros s c. rewrite <- (select_store_set_misuse H s c st). unfold ctx_set.
    destruct (select_store_set H s c st) as [[[i|] cb]|e]; simpl.
    - split; discriminate.
    - split; discriminate.
    - split; intros [= ->]; reflexivity. }
  split_and!; [apply Hget | apply Hkeys | apply Hset |].
  intros name Hname. split_and!.
  - apply Hget. unfold strict_misuse. by rewrite Hname.
  - apply Hkeys. unfold strict_misuse. by rewrite Hname.
  - intros Hthrow. apply Hset in Hthrow. discriminate Hthrow.
Qed.

Lemma misuse_exactly_witness :
  ctx_get empty_host (Closure 1 "n1" None []) "k" (VStr "memory") VUndefined
          plain_run = Throw callbackError
  ∧ ctx_keys empty_host (Closure 1 "n1" None []) (VStr "memory") VUndefined
             plain_run = Throw callbackError
  ∧ ctx_set empty_host (Closure 1 "n1" None []) "k" (VNum 1) (VStr "memory")
            VUndefined plain_run ≠ Throw callbackError.
Proof.
  apply (proj2 (proj2 (proj2
           (misuse_exactly empty_host (Closure 1 "n1" None []) "k" (VNum 1)
              VUndefined VUndefined plain_run))) "memory").
  reflexivity.
Defined.

(** C2 as stated fails: no callback is supplied, a backend is named, and
    [get] throws the misuse error. *)
Lemma misuse_without_callback :
  ¬ (ctx_get empty_host (Closure 1 "n1" None []) "k" (VStr "memory") VUndefined
             plain_run = Throw callbackError
     ↔ supplied_not_callable VUndefined).
Proof.
  intros [Hthrow _].
  assert (Hrun : ctx_get empty_host (Closure 1 "n1" None []) "k"
                   (VStr "memory") VUndefined plain_run = Throw callbackError)
    by (vm_compute; reflexivity).
  destruct (Hthrow Hrun) as [Hsupplied _]. by apply Hsupplied.
Qed.

(** ** deleteContext *)

(** C5: [delete] branches on [hasConfiguredStore] alone.  When the flag is
    false the cached Context of the composite scope id is dropped, nothing
    else in the cache moves, and the default backend's [delete] is called
    for that scope; when it is true the state is left as it is and the
    operation handed back is already resolved. *)
Theorem deleteContext_branches (id : string) (flowId : option string)
    (st : state) :
  (hasConfiguredStore st = true →
     deleteContext id flowId st = (Return PResolved, st)
     ∧ ∀ f, promise_status f PResolved = Fulfilled)
  ∧ (∀ i, hasConfiguredStore st = false → slot st "_" = Store i →
       let scope := composite id flowId in
       let st' := (deleteContext id flowId st).2 in
       (deleteContext id flowId st).1 = Return (PCall (CDelete i scope))
       ∧ contexts st' = delete scope (contexts st)
       ∧ contexts st' !! scope = None
       ∧ (∀ k, k ≠ scope → contexts st' !! k = contexts st !! k)
       ∧ trace st' = (trace st ++ [EvCall (CDelete i scope)])%list
       ∧ stores st' = stores st
       ∧ hasConfiguredStore st' = false).
Proof.
  split.
  - intros Hflag. unfold deleteContext. rewrite Hflag. done.
  - intros i Hflag Hslot. unfold deleteContext. rewrite Hflag. simpl.
    replace (slot (set_contexts st (delete (composite id flowId) (contexts st))) "_")
      with (slot st "_") by reflexivity.
    rewrite Hslot. simpl. split_and!; try done.
    + apply lookup_delete_eq.
    + intros k Hk. by apply lookup_delete_ne.
Qed.

Lemma deleteContext_branches_witness :
  deleteContext "n1" (Some "f1") reinit_run = (Return PResolved, reinit_run)
  ∧ (deleteContext "n1" (Some "f1") plain_run).1
    = Return (PCall (CDelete (Inst 3 Memory) "n1:f1")).
Proof.
  split.
  - apply (proj1 (deleteContext_branches "n1" (Some "f1") reinit_run)).
    vm_compute; reflexivity.
  - apply (proj2 (deleteContext_branches "n1" (Some "f1") plain_run)
             (Inst 3 Memory)); vm_compute; reflexivity.
Defined.

(** ** Objects behind references *)

Lemma heap_obj_set_prop (st : state) (l : loc) (k : string) (v : jsval) :
  heap_obj (set_prop st l k v) l = JsObject.assign (heap_obj st l) k v.
Proof. unfold heap_obj, set_prop, set_heap; simpl. by rewrite lookup_insert_eq. Qed.

Lemma heap_obj_set_prop_ne (st : state) (l l' : loc) (k : string) (v : jsval) :
  l ≠ l' → heap_obj (set_prop st l k v) l' = heap_obj st l'.
Proof.
  intros Hl. unfold heap_obj, set_prop, set_heap; simpl.
  by rewrite lookup_insert_ne.
Qed.

Lemma heap_obj_tick (st : state) (l : loc) : heap_obj (tick st) l = heap_obj st l.
Proof. reflexivity. Qed.

Lemma contexts_createContext (id : string) (seed : option loc) (st : state) :
  contexts (createContext id seed st).2 = contexts st
  ∧ contexts_proto (createContext id seed st).2 = contexts_proto st.
Proof. unfold createContext. destruct seed; done. Qed.

(** [createContext] without a seed: a new object holding the three
    methods and nothing else. *)
Lemma createContext_plain (id : string) (st : state) :
  let env := Closure (S (next st)) id None [] in
  let r := createContext id None st in
  r.1 = next st
  ∧ heap_obj r.2 (next st)
    = [("get", VMethod MGet env); ("set", VMethod MSet env);
       ("keys", VMethod MKeys env)]
  ∧ (∀ l, l ≠ next st → heap_obj r.2 l = heap_obj st l)
  ∧ contexts r.2 = contexts st
  ∧ contexts_proto r.2 = contexts_proto st
  ∧ next r.2 = S (S (next st)).
Proof.
  unfold createContext; simpl. split_and!; try done.
  - rewrite !heap_obj_set_prop. unfold heap_obj; simpl.
    by rewrite lookup_insert_eq.
  - intros l Hl. rewrite !heap_obj_set_prop_ne by done.
    unfold heap_obj; simpl. by rewrite lookup_insert_ne.
Qed.

(** ** Scope ids *)

Example colon_is_the_separator : String colon "" = ":".
Proof. reflexivity. Qed.

Example before_colon_node_flow : before_colon "n1:f1" = "n1".
Proof. reflexivity. Qed.

Example before_colon_plain : before_colon "global" = "global".
Proof. reflexivity. Qed.

Lemma composite_joined (a b : string) :
  b ≠ "" → composite a (Some b) = a +:+ ":" +:+ b.
Proof.
  intros Hb. unfold composite, given. simpl.
  destruct (String.eqb_spec b ""); [done|]. reflexivity.
Qed.

Lemma given_nonempty (f : string) : f ≠ "" → given (Some f) = true.
Proof. intros Hf. unfold given; simpl. by destruct (String.eqb_spec f ""). Qed.

Lemma length_append (a b : string) :
  String.length (a +:+ b) = (String.length a + String.length b)%nat.
Proof. induction a as [|c a IH]; simpl; [done|]. by rewrite IH. Qed.

Lemma before_colon_joined_length (a b : string) :
  (String.length (before_colon (a +:+ ":" +:+ b)) ≤ String.length a)%nat.
Proof.
  induction a as [|c a IH]; simpl; [done|].
  destruct (Ascii.eqb c colon); simpl; lia.
Qed.

(** A joined id is never an id without [:]. *)
Lemma joined_not_plain (a b s : string) :
  before_colon s = s → a +:+ ":" +:+ b ≠ s.
Proof.
  intros Hs Heq.
  pose proof (before_colon_joined_length a b) as Hlen.
  pose proof (length_append a (":" +:+ b)) as Hall.
  rewrite Heq, Hs in Hlen. rewrite Heq in Hall.
  change (":" +:+ b) with (String colon b) in Hall. simpl in Hall.
  revert Hlen Hall.
  generalize (String.length a), (String.length b), (String.length s).
  intros; lia.
Qed.

Lemma joined_not_global (a b : string) : a +:+ ":" +:+ b ≠ "global".
Proof. by apply joined_not_plain. Qed.

Lemma joined_not_flow (a b : string) : a +:+ ":" +:+ b ≠ b.
Proof.
  intros Heq. pose proof (length_append a (":" +:+ b)) as Hall.
  rewrite Heq in Hall. change (":" +:+ b) with (String colon b) in Hall.
  simpl in Hall. revert Hall.
  generalize (String.length a), (String.length b). intros; lia.
Qed.

(** The ids the resolver builds from a flow id contain [:], and a string
    is either free of [:] or splits at its first one. *)
Lemma before_colon_no_colon (a : string) : before_colon a = a → no_colon a.
Proof.
  intros Ha x y Heq. subst a. by apply (joined_not_plain x y _ Ha).
Qed.

Lemma before_colon_joined (a b : string) :
  no_colon a → before_colon (a +:+ ":" +:+ b) = a.
Proof.
  induction a as [|c a IH]; simpl; [done|]. intros Ha.
  destruct (Ascii.eqb_spec c colon) as [->|Hc].
  - exfalso. by apply (Ha "" a).
  - rewrite IH; [done|]. intros x y ->. by apply (Ha (String c x) y).
Qed.

Lemma before_colon_fixed (a : string) : no_colon a → before_colon a = a.
Proof.
  induction a as [|c a IH]; simpl; [done|]. intros Ha.
  destruct (Ascii.eqb_spec c colon) as [->|Hc].
  - exfalso. by apply (Ha "" a).
  - rewrite IH; [done|]. intros x y ->. by apply (Ha (String c x) y).
Qed.

Lemma scope_id_shape (id : string) :
  no_colon id ∨ ∃ a b, no_colon a ∧ id = a +:+ ":" +:+ b.
Proof.
  induction id as [|c id IH].
  - left. intros [|c x] y; discriminate.
  - destruct (Ascii.eqb_spec c colon) as [->|Hc].
    + right. exists "", id. split; [|done]. intros [|c x] y; discriminate.
    + destruct IH as [Hid|(a & b & Ha & ->)].
      * left. intros [|c' x] y; simpl; intros [= Hcc Hrest]; [done|].
        by apply (Hid x y).
      * right. exists (String c a), b. split; [|done].
        intros [|c' x] y; simpl; intros [= Hcc Hrest]; [done|].
        by apply (Ha x y).
Qed.

(** ** getContext *)

Lemma contexts_own_plain (st : state) (id : string) :
  contexts st !! "hasOwnProperty" = None →
  contexts_own st id = Return (contexts st !! id).
Proof. intros Hp. unfold contexts_own. by rewrite Hp. Qed.

Lemma contexts_own_shadowed (st : state) (id : string) (c : loc) :
  contexts st !! "hasOwnProperty" = Some c → contexts_own st id = Throw typeError.
Proof. intros Hp. unfold contexts_own. by rewrite Hp. Qed.

Lemma contexts_own_inv (st : state) (id : string) (o : option loc) :
  contexts_own st id = Return o →
  contexts st !! "hasOwnProperty" = None ∧ o = contexts st !! id.
Proof.
  unfold contexts_own. destruct (contexts st !! "hasOwnProperty"); [done|].
  by intros [= <-].
Qed.

Lemma contexts_assign_plain (st : state) (id : string) (c : loc) :
  id ≠ "__proto__" →
  contexts_assign st id c = set_contexts st (<[id := c]> (contexts st)).
Proof. intros Hid. unfold contexts_assign. by rewrite decide_False. Qed.

Lemma contexts_assign_proto (st : state) (c : loc) :
  contexts st !! "__proto__" = None →
  contexts_assign st "__proto__" c = set_contexts_proto st (Some c).
Proof. intros Hp. unfold contexts_assign. by rewrite decide_True, Hp. Qed.

Lemma contexts_assign_ne (st : state) (id k : string) (c : loc) :
  k ≠ id → contexts (contexts_assign st id c) !! k = contexts st !! k.
Proof.
  intros Hk. unfold contexts_assign.
  destruct (decide (id = "__proto__")); [destruct (contexts st !! id)|]; simpl;
    try done; by rewrite lookup_insert_ne.
Qed.

Lemma contexts_assign_keeps (st : state) (id k : string) (c v : loc) :
  contexts st !! id = None → contexts st !! k = Some v →
  contexts (contexts_assign st id c) !! k = Some v.
Proof.
  intros Hid Hk. rewrite contexts_assign_ne; [done|]. congruence.
Qed.

Lemma contexts_assign_heap (st : state) (id : string) (c l : loc) :
  heap_obj (contexts_assign st id c) l = heap_obj st l.
Proof.
  unfold contexts_assign.
  destruct (decide (id = "__proto__")); [destruct (contexts st !! id)|]; done.
Qed.

Lemma contexts_assign_next (st : state) (id : string) (c : loc) :
  next (contexts_assign st id c) = next st.
Proof.
  unfold contexts_assign.
  destruct (decide (id = "__proto__")); [destruct (contexts st !! id)|]; done.
Qed.

Lemma global_ref_own (st : state) (g : loc) :
  contexts st !! "global" = Some g → global_ref st = VObj g.
Proof. intros Hg. unfold global_ref. by rewrite Hg. Qed.

Lemma global_ref_none (st : state) :
  contexts st !! "global" = None → contexts_proto st = None →
  global_ref st = VUndefined.
Proof. intros Hg Hp. unfold global_ref. by rewrite Hg, Hp. Qed.

Lemma getContext_hit (id : string) (flowId : option string) (st : state)
    (c : loc) :
  contexts st !! "hasOwnProperty" = None →
  contexts st !! composite id flowId = Some c →
  getContext id flowId st = (Return c, st).
Proof.
  intros Hp Hc. unfold getContext. by rewrite (contexts_own_plain _ _ Hp), Hc.
Qed.

Lemma getContext_shadowed (id : string) (flowId : option string) (st : state)
    (c : loc) :
  contexts st !! "hasOwnProperty" = Some c →
  getContext id flowId st = (Throw typeError, st).
Proof.
  intros Hp. unfold getContext. by rewrite (contexts_own_shadowed _ _ _ Hp).
Qed.

Lemma getContext_no_flow (id : string) (st : state) :
  getContext id None st = getContextOf id st.
Proof.
  unfold getContext, getContextOf. simpl composite.
  by destruct (contexts_own st id) as [[c|]|e].
Qed.

(** The inner call, when [hasOwnProperty] is the builtin: the cached
    Context, or a new one, linked and assigned. *)
Lemma getContextOf_plain (f : string) (st : state) :
  contexts st !! "hasOwnProperty" = None →
  getContextOf f st
  = match contexts st !! f with
    | Some c => (Return c, st)
    | None =>
        let st1 := (createContext f None st).2 in
        (Return (next st),
         contexts_assign (set_prop st1 (next st) "global" (global_ref st1))
                         f (next st))
    end.
Proof.
  intros Hp. unfold getContextOf. rewrite (contexts_own_plain _ _ Hp).
  destruct (contexts st !! f) as [c|]; [done|].
  destruct (createContext_plain f st) as (Hloc & _).
  destruct (createContext f None st) as [c st1]. simpl in *. by subst.
Qed.

Lemma getContextOf_contexts (f : string) (st : state) :
  contexts st !! "hasOwnProperty" = None →
  (getContextOf f st).1 = Return (cached_or st f (next st))
  ∧ contexts (getContextOf f st).2
    = match contexts st !! f with
      | Some _ => contexts st
      | None =>
          if decide (f = "__proto__") then contexts st
          else <[f := next st]> (contexts st)
      end
  ∧ (∀ l, l ≠ next st → heap_obj (getContextOf f st).2 l = heap_obj st l)
  ∧ (next st ≤ next (getContextOf f st).2)%nat.
Proof.
  intros Hp. rewrite (getContextOf_plain f st Hp). unfold cached_or.
  destruct (contexts st !! f) as [c|] eqn:Hf; cbv zeta; cbn [fst snd]; [done|].
  destruct (createContext_plain f st) as (_ & _ & Hothers & Hctx & _ & Hnext).
  split_and!; [done| | |].
  - destruct (decide (f = "__proto__")) as [->|Hne].
    + rewrite contexts_assign_proto by (cbn [contexts set_prop set_heap]; by rewrite Hctx).
      exact Hctx.
    + rewrite contexts_assign_plain by done. cbn [contexts set_contexts set_prop set_heap]. by rewrite Hctx.
  - intros l Hl. rewrite contexts_assign_heap, heap_obj_set_prop_ne by done.
    by apply Hothers.
  - rewrite contexts_assign_next.
    change (next st ≤ next (createContext f None st).2)%nat. lia.
Qed.

(** The outer call for a node inside a flow, when the scope is not cached
    yet. *)
Lemma getContext_flow_miss (localId f : string) (st : state) :
  f ≠ "" → contexts st !! "hasOwnProperty" = None →
  contexts st !! (localId +:+ ":" +:+ f) = None →
  let scope := localId +:+ ":" +:+ f in
  let st1 := (createContext scope None st).2 in
  let flow := cached_or st f (next st1) in
  let st2 := (getContextOf f st1).2 in
  let st3 := set_prop st2 (next st) "flow" (VObj flow) in
  getContext localId (Some f) st
  = (Return (next st),
     contexts_assign (set_prop st3 (next st) "global" (global_ref st3))
                     scope (next st)).
Proof.
  intros Hf Hp Hmiss. cbv zeta. unfold getContext.
  rewrite (composite_joined localId f Hf), (contexts_own_plain _ _ Hp), Hmiss.
  rewrite (given_nonempty f Hf).
  destruct (createContext_plain (localId +:+ ":" +:+ f) st)
    as (Hloc & _ & _ & Hctx & _).
  destruct (createContext (localId +:+ ":" +:+ f) None st) as [c st1].
  simpl in Hloc, Hctx. subst c. cbn [snd].
  assert (Hp1 : contexts st1 !! "hasOwnProperty" = None) by (by rewrite Hctx).
  destruct (getContextOf_contexts f st1 Hp1) as (Hret & _).
  unfold cached_or in *. rewrite Hctx in Hret.
  destruct (getContextOf f st1) as [r st2]. simpl in Hret. subst r. done.
Qed.

Lemma getContextOf_keeps (f k : string) (c : loc) (st : state) :
  contexts st !! k = Some c → contexts (getContextOf f st).2 !! k = Some c.
Proof.
  intros Hk. unfold getContextOf.
  destruct (contexts_own st f) as [[c'|]|e] eqn:Hown; [done| |done].
  apply contexts_own_inv in Hown as [_ Hf].
  destruct (contexts_createContext f None st) as [Hc _].
  destruct (createContext f None st) as [newContext st1]. simpl in *.
  apply contexts_assign_keeps; simpl; by rewrite Hc.
Qed.

Lemma getContext_keeps (id : string) (flowId : option string) (k : string)
    (c : loc) (st : state) :
  contexts st !! k = Some c → contexts (getContext id flowId st).2 !! k = Some c.
Proof.
  intros Hk. unfold getContext.
  destruct (contexts_own st (composite id flowId)) as [[c'|]|e] eqn:Hown;
    [done| |done].
  apply contexts_own_inv in Hown as [_ Hmiss].
  destruct (contexts_createContext (composite id flowId) None st) as [Hc _].
  destruct (createContext (composite id flowId) None st) as [newContext st1].
  simpl in Hc.
  assert (Hk1 : contexts st1 !! k = Some c) by (by rewrite Hc).
  assert (Hne : k ≠ composite id flowId) by congruence.
  destruct flowId as [f|]; [destruct (given (Some f))|]; simpl.
  - pose proof (getContextOf_keeps f k c st1 Hk1) as Hflow.
    destruct (getContextOf f st1) as [[flow|e] st2]; simpl in *; [|done].
    by rewrite contexts_assign_ne.
  - by rewrite contexts_assign_ne.
  - by rewrite contexts_assign_ne.
Qed.

(** What the outer call leaves in the cache when it had to make the
    Context of a node inside a flow. *)
Lemma getContext_flow_contexts (localId f : string) (st : state) :
  f ≠ "" → contexts st !! "hasOwnProperty" = None →
  contexts st !! (localId +:+ ":" +:+ f) = None →
  let scope := localId +:+ ":" +:+ f in
  let r := getContext localId (Some f) st in
  r.1 = Return (next st)
  ∧ contexts r.2
    = <[scope := next st]>
        (match contexts st !! f with
         | Some _ => contexts st
         | None =>
             if decide (f = "__proto__") then contexts st
             else <[f := S (S (next st))]> (contexts st)
         end).
Proof.
  intros Hf Hp Hmiss. cbv zeta.
  rewrite (getContext_flow_miss localId f st Hf Hp Hmiss). cbn [fst snd].
  split; [done|].
  rewrite contexts_assign_plain
    by (apply joined_not_plain; reflexivity).
  destruct (createContext_plain (localId +:+ ":" +:+ f) st)
    as (_ & _ & _ & Hctx & _ & Hnext).
  assert (Hp1 : contexts (createContext (localId +:+ ":" +:+ f) None st).2
                !! "hasOwnProperty" = None) by (by rewrite Hctx).
  destruct (getContextOf_contexts f _ Hp1) as (_ & Hcs & _).
  rewrite Hctx, Hnext in Hcs.
  cbn [contexts set_contexts set_prop set_heap]. by rewrite Hcs.
Qed.

(** C10, as the code has it.  For a flow id that is not the empty string,
    [get(a, b)] and [get(a + ":" + b)] work on the same scope id.  While
    no Context is cached under [hasOwnProperty], whichever is called
    first returns a Context that is cached under that id afterwards, and
    the one called second finds it and returns that very object, leaving
    the state as it is, with one exception: [get(a, "hasOwnProperty")],
    when it has to make the Context, caches the flow's Context under
    [hasOwnProperty], and the call that follows throws.  With a Context
    cached under [hasOwnProperty] both calls throw. *)
Theorem composite_id_shared (a b : string) (st : state) :
  b ≠ "" →
  let scope := a +:+ ":" +:+ b in
  composite a (Some b) = composite scope None
  ∧ (contexts st !! "hasOwnProperty" = None →
     (∃ c, (getContext a (Some b) st).1 = Return c
           ∧ contexts (getContext a (Some b) st).2 !! scope = Some c
           ∧ (b ≠ "hasOwnProperty" ∨ is_Some (contexts st !! scope) →
              getContext scope None (getContext a (Some b) st).2
              = (Return c, (getContext a (Some b) st).2))
           ∧ (b = "hasOwnProperty" → contexts st !! scope = None →
              getContext scope None (getContext a (Some b) st).2
              = (Throw typeError, (getContext a (Some b) st).2)))
     ∧ (∃ c, (getContext scope None st).1 = Return c
             ∧ contexts (getContext scope None st).2 !! scope = Some c
             ∧ getContext a (Some b) (getContext scope None st).2
               = (Return c, (getContext scope None st).2)))
  ∧ (∀ c, contexts st !! "hasOwnProperty" = Some c →
       getContext a (Some b) st = (Throw typeError, st)
       ∧ getContext scope None st = (Throw typeError, st)).
Proof.
  intros Hb scope.
  assert (Hid : composite a (Some b) = composite scope None)
    by (by rewrite composite_joined).
  assert (Hns : scope ≠ "hasOwnProperty") by (by apply joined_not_plain).
  assert (Hnp : scope ≠ "__proto__") by (by apply joined_not_plain).
  split_and!; [done| |].
  - intros Hp. split.
    + destruct (contexts st !! scope) as [c|] eqn:Hc.
      * assert (Hhit : getContext a (Some b) st = (Return c, st))
          by (apply getContext_hit; [done|by rewrite Hid]).
        exists c. rewrite Hhit. split_and!; [done|done| |done].
        intros _. by apply getContext_hit.
      * destruct (getContext_flow_contexts a b st Hb Hp Hc) as (Hret & Hcs).
        fold scope in Hcs.
        exists (next st). split_and!; [done| | |].
        -- rewrite Hcs. apply lookup_insert_eq.
        -- intros [Hne|[? ?]]; [|done]. apply getContext_hit.
           ++ rewrite Hcs, lookup_insert_ne by done.
              destruct (contexts st !! b); [done|].
              destruct (decide (b = "__proto__")); [done|].
              by rewrite lookup_insert_ne.
           ++ rewrite Hcs. apply lookup_insert_eq.
        -- intros -> _. eapply getContext_shadowed.
           rewrite Hcs, lookup_insert_ne by done. rewrite Hp.
           rewrite decide_False by done. apply lookup_insert_eq.
    + rewrite getContext_no_flow.
      destruct (getContextOf_contexts scope st Hp) as (Hret & Hcs & _).
      assert (Hcached : contexts (getContextOf scope st).2 !! scope
                        = Some (cached_or st scope (next st))).
      { rewrite Hcs. unfold cached_or.
        destruct (contexts st !! scope) as [c|] eqn:Hc; [done|].
        rewrite decide_False by done. apply lookup_insert_eq. }
      exists (cached_or st scope (next st)). split_and!; [done|done|].
      apply getContext_hit.
      * rewrite Hcs. destruct (contexts st !! scope); [done|].
        rewrite decide_False by done. by rewrite lookup_insert_ne.
      * by rewrite (composite_joined a b Hb).
  - intros c Hp. split; by eapply getContext_shadowed.
Qed.

Lemma composite_id_shared_witness :
  composite "n1" (Some "f1") = composite ("n1" +:+ ":" +:+ "f1") None
  ∧ ∃ c, (getContext "n1" (Some "f1") plain_run).1 = Return c
         ∧ getContext ("n1" +:+ ":" +:+ "f1") None
             (getContext "n1" (Some "f1") plain_run).2
           = (Return c, (getContext "n1" (Some "f1") plain_run).2).
Proof.
  destruct (composite_id_shared "n1" "f1" plain_run ltac:(discriminate))
    as (Hid & Hshared & _).
  split; [exact Hid|].
  destruct Hshared as [(c & Hc & _ & Hsame & _) _]; [vm_compute; reflexivity|].
  exists c. split; [exact Hc|]. apply Hsame. left. discriminate.
Defined.

(** C10 as stated, for all strings, fails at the empty flow id: [get("n",
    "")] works on scope ["n"], [get("n:")] on scope ["n:"], and the two
    calls hand back different objects. *)
Lemma empty_flow_id_is_no_flow_id :
  ¬ (composite "n" (Some "") = composite ("n" +:+ ":" +:+ "") None
     ∧ (getContext ("n" +:+ ":" +:+ "") None
          (getContext "n" (Some "") plain_run).2).1
       = (getContext "n" (Some "") plain_run).1).
Proof. intros [Hid _]. vm_compute in Hid. discriminate Hid. Qed.

Example empty_flow_id_objects :
  (getContext "n" (Some "") plain_run).1 = Return 4
  ∧ (getContext "n:" None (getContext "n" (Some "") plain_run).2).1 = Return 6.
Proof. vm_compute. done. Qed.

(** It fails at the flow id ["hasOwnProperty"] too: the first call caches
    the flow's Context under that name, and the second throws. *)
Example shadowing_flow_id :
  (getContext "n" (Some "hasOwnProperty") plain_run).1 = Return 4
  ∧ (getContext "n:hasOwnProperty" None
       (getContext "n" (Some "hasOwnProperty") plain_run).2).1
    = Throw typeError.
Proof. vm_compute. done. Qed.

(** ** createContext and init *)

(** The object behind a seeded handle after [createContext]: the seed
    itself, with the three methods written over it. *)
Lemma createContext_seeded (id : string) (l : loc) (st : state) :
  let env := Closure (next st) id (Some l) (JsObject.keys (heap_obj st l)) in
  let st' := (createContext id (Some l) st).2 in
  (createContext id (Some l) st).1 = l
  ∧ heap_obj st' l
    = JsObject.assign
        (JsObject.assign
           (JsObject.assign (heap_obj st l) "get" (VMethod MGet env))
           "set" (VMethod MSet env))
        "keys" (VMethod MKeys env)
  ∧ contexts st' = contexts st ∧ stores st' = stores st
  ∧ settings st' = settings st
  ∧ hasConfiguredStore st' = hasConfiguredStore st
  ∧ next st' = S (next st) ∧ trace st' = trace st.
Proof.
  unfold createContext; simpl. split_and!; try done.
  by rewrite !heap_obj_set_prop, heap_obj_tick.
Qed.

Lemma methods_in_place (o : list (string * jsval)) (env : closure) (m : method) :
  JsObject.own
    (JsObject.assign
       (JsObject.assign (JsObject.assign o "get" (VMethod MGet env))
          "set" (VMethod MSet env))
       "keys" (VMethod MKeys env))
    (method_name m)
  = Some (VMethod m env).
Proof.
  destruct m; simpl.
  - rewrite !JsObjectFacts.own_assign_ne by done.
    apply JsObjectFacts.own_assign_eq; by left.
  - rewrite JsObjectFacts.own_assign_ne by done.
    apply JsObjectFacts.own_assign_eq; by left.
  - apply JsObjectFacts.own_assign_eq; by left.
Qed.

Lemma methods_elsewhere (o : list (string * jsval)) (v1 v2 v3 : jsval)
    (key : string) :
  key ∉ ["get"; "set"; "keys"] →
  JsObject.own
    (JsObject.assign (JsObject.assign (JsObject.assign o "get" v1) "set" v2)
       "keys" v3)
    key
  = JsObject.own o key.
Proof.
  intros Hkey.
  rewrite !JsObjectFacts.own_assign_ne; [done|..];
    intros <-; apply Hkey; set_solver.
Qed.

(** [init], written out as the state it leaves. *)
Lemma init_eq (s : Settings) (st : state) :
  let st2 := with_seed s st in
  let r := createContext "global" (Some (seed_of s st)) st2 in
  init s st
  = State (Some s) (<["global" := seed_of s st]> (contexts st))
          [("_", Store (Inst (S (next st2)) Memory))]
          (hasConfiguredStore st) (heap r.2) (S (S (next st2)))
          (trace st ++ [EvNew (Inst (S (next st2)) Memory)])
          (contexts_proto st) None.
Proof.
  unfold init, with_seed, seed_of.
  destruct (functionGlobalContext s); reflexivity.
Qed.

Lemma with_seed_object (s : Settings) (st : state) :
  heap_obj (with_seed s st) (seed_of s st) = configured_map s st.
Proof.
  unfold with_seed, seed_of, configured_map, heap_obj.
  destruct (functionGlobalContext s); simpl; [done|].
  by rewrite lookup_insert_eq.
Qed.

(** The global Context that [init] leaves behind: the seed object itself,
    whose three methods share one closure over it. *)
Lemma init_global (s : Settings) (st : state) :
  let st' := init s st in
  let g := seed_of s st in
  let env := Closure (next (with_seed s st)) "global" (Some g)
                     (JsObject.keys (configured_map s st)) in
  contexts st' !! "global" = Some g
  ∧ (∀ m, method_env st' g (method_name m) m = Some env)
  ∧ (∀ key, key ∉ ["get"; "set"; "keys"] →
       JsObject.own (heap_obj st' g) key
       = JsObject.own (configured_map s st) key)
  ∧ (∀ m, JsObject.own (heap_obj st' g) (method_name m) = Some (VMethod m env)).
Proof.
  simpl. rewrite init_eq. simpl.
  destruct (createContext_seeded "global" (seed_of s st) (with_seed s st))
    as (_ & Hheap & _).
  rewrite with_seed_object in Hheap.
  set (r := createContext "global" (Some (seed_of s st)) (with_seed s st)) in *.
  split_and!.
  - apply lookup_insert_eq.
  - intros m. unfold method_env.
    replace (heap_obj _ (seed_of s st)) with (heap_obj r.2 (seed_of s st))
      by reflexivity.
    rewrite Hheap, methods_in_place. by rewrite decide_True.
  - intros key Hkey.
    replace (heap_obj _ (seed_of s st)) with (heap_obj r.2 (seed_of s st))
      by reflexivity.
    by rewrite Hheap, methods_elsewhere.
  - intros m.
    replace (heap_obj _ (seed_of s st)) with (heap_obj r.2 (seed_of s st))
      by reflexivity.
    by rewrite Hheap, methods_in_place.
Qed.

(** C3, as the code has it: [init] replaces [stores] by the single entry
    ["_"], bound to an in-memory backend made during the call, and binds
    ["global"] in [contexts] to the Context built on the configured
    initial-values map (that very object, now carrying the three methods);
    every other entry of [contexts] is left as it was. *)
Theorem init_effect (s : Settings) (st : state) :
  let st' := init s st in
  let g := seed_of s st in
  ∃ n env,
    settings st' = Some s
    ∧ stores st' = [("_", Store (Inst n Memory))]
    ∧ (next st ≤ n)%nat ∧ (n < next st')%nat
    ∧ trace st' = (trace st ++ [EvNew (Inst n Memory)])%list
    ∧ contexts st' = <["global" := g]> (contexts st)
    ∧ (∀ id, id ≠ "global" → contexts st' !! id = contexts st !! id)
    ∧ cl_scope env = "global" ∧ cl_seed env = Some g
    ∧ cl_seedKeys env = JsObject.keys (configured_map s st)
    ∧ (∀ m, method_env st' g (method_name m) m = Some env)
    ∧ (∀ key, key ∉ ["get"; "set"; "keys"] →
         JsObject.own (heap_obj st' g) key
         = JsObject.own (configured_map s st) key).
Proof.
  destruct (init_global s st) as (_ & Hmethods & Hothers & _).
  simpl in *.
  exists (S (next (with_seed s st))),
    (Closure (next (with_seed s st)) "global" (Some (seed_of s st))
             (JsObject.keys (configured_map s st))).
  assert (Hnext : (next st ≤ next (with_seed s st))%nat).
  { unfold with_seed. destruct (functionGlobalContext s); simpl; lia. }
  split_and!; try done; rewrite ?init_eq; simpl; try done; try lia.
  intros id Hid. by rewrite lookup_insert_ne.
Qed.

Lemma init_effect_witness :
  ∃ n, stores (init plain_settings booted) = [("_", Store (Inst n Memory))]
       ∧ contexts reinit_run !! "f1" = Some 6.
Proof.
  destruct (init_effect plain_settings booted) as (n & _ & _ & Hstores & _).
  destruct (init_effect plain_settings
              (getContext "n1" (Some "f1")
                 (load empty_host (init aliased_settings booted)).2).2)
    as (_ & _ & _ & _ & _ & _ & _ & _ & Hkept & _).
  exists n. split; [exact Hstores|].
  exact (Hkept "f1" ltac:(discriminate)).
Defined.

(** C3 as stated fails: after [init(aliased); load(); get("n1","f1")], a
    second [init] leaves the cached Contexts of ["n1:f1"] and ["f1"] in
    place. *)
Lemma init_keeps_cache : ¬ fully_reset reinit_run.
Proof.
  intros (_ & Hcache & _).
  specialize (Hcache "f1"). vm_compute in Hcache.
  by specialize (Hcache ltac:(discriminate)).
Qed.

Example reinit_run_observed :
  contexts reinit_run !! "n1:f1" = Some 4
  ∧ contexts reinit_run !! "f1" = Some 6
  ∧ hasConfiguredStore reinit_run = true
  ∧ stores reinit_run = [("_", Store (Inst 9 Memory))].
Proof. vm_compute. done. Qed.

(** ** load without configuration *)

Lemma slot_assign_eq (st : state) (k : string) (v : sval) :
  k ≠ "__proto__" →
  slot (set_stores st (JsObject.assign (stores st) k v)) k = v.
Proof.
  intros Hk. unfold slot; simpl.
  by rewrite JsObjectFacts.own_assign_eq by (by left).
Qed.

Lemma slot_assign_ne (st : state) (k k' : string) (v : sval) :
  k ≠ k' → slot (set_stores st (JsObject.assign (stores st) k v)) k' = slot st k'.
Proof. intros Hk. unfold slot; simpl. by rewrite JsObjectFacts.own_assign_ne. Qed.

Lemma load_unconfigured_eq (H : Host) (s : Settings) (st : state) :
  settings st = Some s → contextStorage s = None →
  let m := Inst (next st) Memory in
  let st1 := log_event (tick st) (EvNew m) in
  let st2 := set_stores st1 (JsObject.assign (stores st1) "_" (Store m)) in
  let st3 := set_stores st2 (JsObject.assign (stores st2) "default" (Store m)) in
  load H st = (PAll [COpen m], log_event st3 (EvCall (COpen m))).
Proof.
  intros Hs Hc. unfold load, load_configured. rewrite Hs, Hc.
  cbv beta iota zeta. unfold memory. cbv beta iota zeta.
  rewrite !slot_assign_eq by done.
  rewrite (slot_assign_ne _ "default" "_") by done.
  by rewrite slot_assign_eq by done.
Qed.

(** Without [contextStorage] in the settings, [load] makes one in-memory
    backend, registers that one instance as ["_"] and as ["default"], calls
    its [open], and hands back the join of that single call, which is
    fulfilled when the call is.  Other entries of [stores], the cache and
    the [hasConfiguredStore] flag are left as they were. *)
Lemma load_unconfigured (H : Host) (s : Settings) (st : state) :
  settings st = Some s → contextStorage s = None →
  let m := Inst (next st) Memory in
  let st' := (load H st).2 in
  (load H st).1 = PAll [COpen m]
  ∧ (∀ f, f (COpen m) = Fulfilled → promise_status f (load H st).1 = Fulfilled)
  ∧ trace st' = (trace st ++ [EvNew m; EvCall (COpen m)])%list
  ∧ slot st' "_" = Store m ∧ slot st' "default" = Store m
  ∧ (∀ k, k ≠ "_" → k ≠ "default" →
       JsObject.own (stores st') k = JsObject.own (stores st) k)
  ∧ (∀ old, stores st = [("_", old)] →
       stores st' = [("_", Store m); ("default", Store m)])
  ∧ hasConfiguredStore st' = hasConfiguredStore st
  ∧ contexts st' = contexts st.
Proof.
  intros Hs Hc m. simpl. rewrite (load_unconfigured_eq H s st Hs Hc).
  fold m. simpl.
  split_and!; try done.
  - intros f Hf. unfold all_status; simpl. rewrite Hf.
    rewrite bool_decide_eq_false_2 by discriminate.
    by rewrite bool_decide_eq_true_2.
  - by rewrite <- app_assoc.
  - unfold slot; simpl. rewrite JsObjectFacts.own_assign_ne by done.
    by rewrite JsObjectFacts.own_assign_eq by (by left).
  - unfold slot; simpl. by rewrite JsObjectFacts.own_assign_eq by (by left).
  - intros k Hk Hd. by rewrite !JsObjectFacts.own_assign_ne.
  - intros old Hold. by rewrite Hold.
Qed.

Example load_unconfigured_first_run :
  (load empty_host (init plain_settings booted)).1 = PAll [COpen (Inst 3 Memory)]
  ∧ stores plain_run = [("_", Store (Inst 3 Memory)); ("default", Store (Inst 3 Memory))]
  ∧ hasConfiguredStore plain_run = false.
Proof.
  destruct (load_unconfigured empty_host plain_settings
              (init plain_settings booted) eq_refl eq_refl)
    as (Hp & _ & _ & _ & _ & _ & Hstores & Hflag & _).
  split_and!.
  - exact Hp.
  - exact (Hstores (Store (Inst 2 Memory)) eq_refl).
  - exact Hflag.
Qed.

(** C4 fails on the code when an earlier [load] in the same process had a
    backend configured: the second [init] carries no backend
    configuration, [load] falls back to one in-memory backend under both
    names and calls its [open], yet [hasConfiguredStore] still has the
    value the earlier [load] gave it, and a [delete] that follows does
    nothing. *)
Theorem stale_flag_after_unconfigured_load :
  let r := load empty_host reinit_run in
  settings reinit_run = Some plain_settings
  ∧ contextStorage plain_settings = None
  ∧ r.1 = PAll [COpen (Inst 10 Memory)]
  ∧ stores r.2 = [("_", Store (Inst 10 Memory)); ("default", Store (Inst 10 Memory))]
  ∧ hasConfiguredStore r.2 = true
  ∧ deleteContext "n1" (Some "f1") r.2 = (Return PResolved, r.2).
Proof. vm_compute. done. Qed.

(** ** clean *)

Lemma call_all_contexts (mk : inst → backend_call) (ss : list (string * sval))
    (st : state) :
  contexts (call_all mk ss st).2 = contexts st.
Proof.
  revert st. induction ss as [|[k [i|]] ss IH]; intros st; simpl; [done| |done].
  specialize (IH (log_event st (EvCall (mk i)))).
  destruct (call_all mk ss (log_event st (EvCall (mk i)))) as [[cs|e] st'];
    simpl in *; by rewrite IH.
Qed.

Lemma call_all_ok (mk : inst → backend_call) (ss : list (string * sval))
    (st : state) :
  Forall (λ p, p.2 ≠ NoStore) ss →
  (call_all mk ss st).1 = Return (mk <$> instances ss)
  ∧ trace (call_all mk ss st).2
    = (trace st ++ (EvCall ∘ mk <$> instances ss))%list.
Proof.
  intros Hss. revert st.
  induction Hss as [|[k [i|]] ss Hk Hss IH]; intros st; simpl.
  - by rewrite app_nil_r.
  - destruct (IH (log_event st (EvCall (mk i)))) as [Hr Ht].
    destruct (call_all mk ss (log_event st (EvCall (mk i)))) as [[cs|e] st'];
      simpl in *; [|done].
    injection Hr as ->. split; [done|]. by rewrite Ht, <- app_assoc.
  - done.
Qed.

Lemma call_all_stores (mk : inst → backend_call) (ss : list (string * sval))
    (st : state) :
  stores (call_all mk ss st).2 = stores st
  ∧ hasConfiguredStore (call_all mk ss st).2 = hasConfiguredStore st
  ∧ stores_proto (call_all mk ss st).2 = stores_proto st.
Proof.
  revert st. induction ss as [|[k [i|]] ss IH]; intros st; simpl; [done| |done].
  specialize (IH (log_event st (EvCall (mk i)))).
  destruct (call_all mk ss (log_event st (EvCall (mk i)))) as [[cs|e] st'];
    simpl in *; exact IH.
Qed.

(** One pass of the loop, when both [hasOwnProperty] lookups find the
    builtin. *)
Lemma evict_plain (fc : FlowConfig) (id : string) (st : state) :
  contexts st !! "hasOwnProperty" = None →
  JsObject.hasOwnProperty (allNodes fc) "hasOwnProperty" = false →
  ∃ st', evict fc id st = Return st'
         ∧ (∀ k, contexts st' !! k
                 = if decide (k = id)
                   then (if doomed fc id then None else contexts st !! k)
                   else contexts st !! k)
         ∧ stores st' = stores st ∧ trace st' = trace st.
Proof.
  intros Hp Hn. unfold evict, allNodes_hasOwnProperty, doomed.
  rewrite (contexts_own_plain _ _ Hp), Hn.
  destruct (contexts st !! id) as [c|] eqn:Hid.
  - case_bool_decide as Hg; simpl.
    + destruct (JsObject.hasOwnProperty (allNodes fc) (before_colon id)); simpl.
      * exists st. split_and!; try done. intros k. by case_decide.
      * eexists. split_and!; [done| |done|done]. intros k. simpl.
        case_decide as Hk; [subst; apply lookup_delete_eq|].
        by apply lookup_delete_ne.
    + exists st. split_and!; try done. intros k. by case_decide.
  - exists st. split_and!; try done. intros k.
    case_decide as Hk; [subst|done]. rewrite Hid. by case_match.
Qed.

Lemma evict_each_lookup (fc : FlowConfig) (ids : list string) (st : state) :
  contexts st !! "hasOwnProperty" = None →
  JsObject.hasOwnProperty (allNodes fc) "hasOwnProperty" = false →
  (evict_each fc ids st).1 = Return ()
  ∧ (∀ k, contexts (evict_each fc ids st).2 !! k
          = if bool_decide (k ∈ ids) && doomed fc k then None
            else contexts st !! k)
  ∧ stores (evict_each fc ids st).2 = stores st
  ∧ trace (evict_each fc ids st).2 = trace st.
Proof.
  intros Hp Hn. revert st Hp.
  induction ids as [|id ids IH]; intros st Hp; simpl; [done|].
  destruct (evict_plain fc id st Hp Hn) as (st' & -> & Hcs & Hss & Htr).
  assert (Hp' : contexts st' !! "hasOwnProperty" = None).
  { rewrite Hcs. repeat case_match; done. }
  destruct (IH st' Hp') as (Hret & Hlook & Hss' & Htr').
  split_and!; [done| |congruence|congruence].
  intros k. rewrite Hlook, Hcs.
  destruct (decide (k = id)) as [->|Hne].
  - rewrite (bool_decide_eq_true_2 (id ∈ id :: ids)) by apply list_elem_of_here.
    simpl. destruct (doomed fc id); simpl; [by case_match|].
    by rewrite andb_false_r.
  - replace (bool_decide (k ∈ id :: ids)) with (bool_decide (k ∈ ids)); [done|].
    apply bool_decide_ext. rewrite elem_of_cons.
    split; [by right | by intros [?|?]].
Qed.

(** One pass of the loop, when one of the two lookups finds something
    else: it throws or changes nothing. *)
Lemma evict_static (fc : FlowConfig) (id : string) (st : state) :
  is_Some (contexts st !! "hasOwnProperty")
  ∨ JsObject.hasOwnProperty (allNodes fc) "hasOwnProperty" = true →
  match evict fc id st with
  | Return st' => st' = st
  | Throw e => e = typeError
  end.
Proof.
  intros Hor. unfold evict, contexts_own, allNodes_hasOwnProperty.
  destruct (contexts st !! "hasOwnProperty") eqn:Hp; [done|].
  destruct Hor as [[? ?]|Hn]; [done|]. rewrite Hn.
  destruct (contexts st !! id); [|done]. by case_bool_decide.
Qed.

Lemma evict_each_static (fc : FlowConfig) (ids : list string) (st : state) :
  is_Some (contexts st !! "hasOwnProperty")
  ∨ JsObject.hasOwnProperty (allNodes fc) "hasOwnProperty" = true →
  (evict_each fc ids st).2 = st.
Proof.
  intros Hor. induction ids as [|id ids IH]; simpl; [done|].
  pose proof (evict_static fc id st Hor) as Hstep.
  destruct (evict fc id st) as [st'|e]; [by subst|done].
Qed.

Lemma evict_each_throws (fc : FlowConfig) (ids : list string) (st : state) :
  (is_Some (contexts st !! "hasOwnProperty") ∧ ids ≠ [])
  ∨ (JsObject.hasOwnProperty (allNodes fc) "hasOwnProperty" = true
     ∧ ∃ id, id ∈ ids ∧ id ≠ "global" ∧ is_Some (contexts st !! id)) →
  (evict_each fc ids st).1 = Throw typeError.
Proof.
  intros [[Hp Hne]|[Hn (id & Hin & Hg & Hid)]].
  - destruct ids as [|id ids]; [done|]. simpl.
    destruct Hp as [c Hp]. unfold evict.
    by rewrite (contexts_own_shadowed _ _ _ Hp).
  - induction ids as [|id' ids IH]; [by apply elem_of_nil in Hin|]. simpl.
    pose proof (evict_static fc id' st (or_intror Hn)) as Hstep.
    destruct (evict fc id' st) as [st'|e] eqn:Hev; [|by subst].
    subst st'. apply elem_of_cons in Hin as [<-|Hin]; [|by apply IH].
    exfalso. revert Hev. unfold evict, contexts_own, allNodes_hasOwnProperty.
    destruct (contexts st !! "hasOwnProperty"); [done|].
    destruct Hid as [c ->]. rewrite Hn.
    by rewrite bool_decide_eq_true_2.
Qed.

Lemma clean_contexts (fc : FlowConfig) (st : state) (k : string) :
  Forall (λ p, p.2 ≠ NoStore) (stores st) →
  contexts st !! "hasOwnProperty" = None →
  JsObject.hasOwnProperty (allNodes fc) "hasOwnProperty" = false →
  contexts (clean fc st).2 !! k
  = if doomed fc k then None else contexts st !! k.
Proof.
  intros Hss Hp Hn. unfold clean.
  destruct (call_all_ok (λ i, CClean i (JsObject.keys (allNodes fc)))
              (stores st) st Hss) as [Hr _].
  pose proof (call_all_contexts (λ i, CClean i (JsObject.keys (allNodes fc)))
                (stores st) st) as Hc.
  destruct (call_all _ (stores st) st) as [[cs|e] st']; simpl in *; [|done].
  assert (Hp' : contexts st' !! "hasOwnProperty" = None) by (by rewrite Hc).
  destruct (evict_each_lookup fc (map_to_list (contexts st')).*1 st' Hp' Hn)
    as (Hret & Hlook & _).
  destruct (evict_each fc _ st') as [[[]|e] st'']; simpl in *; [|done].
  rewrite Hlook, Hc.
  destruct (doomed fc k); [|by rewrite andb_false_r].
  rewrite andb_true_r. case_bool_decide as Hin; [done|].
  destruct (contexts st !! k) as [c|] eqn:Hk; [|done].
  exfalso. apply Hin. apply list_elem_of_fmap. exists (k, c). split; [done|].
  by apply elem_of_map_to_list.
Qed.

Lemma clean_contexts_static (fc : FlowConfig) (st : state) :
  is_Some (contexts st !! "hasOwnProperty")
  ∨ JsObject.hasOwnProperty (allNodes fc) "hasOwnProperty" = true →
  contexts (clean fc st).2 = contexts st.
Proof.
  intros Hor. unfold clean.
  pose proof (call_all_contexts (λ i, CClean i (JsObject.keys (allNodes fc)))
                (stores st) st) as Hc.
  destruct (call_all _ (stores st) st) as [[cs|e] st']; simpl in *; [|done].
  assert (Hor' : is_Some (contexts st' !! "hasOwnProperty")
                 ∨ JsObject.hasOwnProperty (allNodes fc) "hasOwnProperty" = true)
    by (by rewrite Hc).
  pose proof (evict_each_static fc (map_to_list (contexts st')).*1 st' Hor')
    as Hst.
  destruct (evict_each fc _ st') as [[[]|e] st'']; simpl in *; by subst.
Qed.

Lemma clean_global (fc : FlowConfig) (st : state) :
  contexts (clean fc st).2 !! "global" = contexts st !! "global".
Proof.
  destruct (contexts st !! "hasOwnProperty") as [c|] eqn:Hp.
  { rewrite clean_contexts_static; [done|]. left. by rewrite Hp. }
  destruct (JsObject.hasOwnProperty (allNodes fc) "hasOwnProperty") eqn:Hn.
  { rewrite clean_contexts_static; [done|]. by right. }
  unfold clean.
  pose proof (call_all_contexts (λ i, CClean i (JsObject.keys (allNodes fc)))
                (stores st) st) as Hc.
  destruct (call_all _ (stores st) st) as [[cs|e] st']; simpl in *;
    [|by rewrite Hc].
  assert (Hp' : contexts st' !! "hasOwnProperty" = None) by (by rewrite Hc).
  destruct (evict_each_lookup fc (map_to_list (contexts st')).*1 st' Hp' Hn)
    as (_ & Hlook & _).
  destruct (evict_each fc _ st') as [[[]|e] st'']; simpl in *;
    rewrite Hlook, Hc; unfold doomed;
    rewrite (bool_decide_eq_false_2 ("global" ≠ "global")) by (by intros ?);
    simpl; by rewrite andb_false_r.
Qed.

Lemma clean_stores (fc : FlowConfig) (st : state) :
  stores (clean fc st).2 = stores st.
Proof.
  unfold clean.
  pose proof (call_all_stores (λ i, CClean i (JsObject.keys (allNodes fc)))
                (stores st) st) as [Hs _].
  destruct (call_all _ (stores st) st) as [[cs|e] st']; simpl in *; [|done].
  assert (Hev : ∀ ids st0, stores (evict_each fc ids st0).2 = stores st0).
  { induction ids as [|id ids IH]; intros st0; simpl; [done|].
    destruct (evict fc id st0) as [st1|e] eqn:Hev; [|done].
    rewrite IH. revert Hev. unfold evict.
    repeat case_match; intros; by simplify_eq. }
  specialize (Hev (map_to_list (contexts st')).*1 st').
  destruct (evict_each fc _ st') as [[[]|e] st'']; simpl in *; congruence.
Qed.

Lemma all_settled (f : backend_call → status) (cs : list backend_call) :
  Forall (λ c, f c ≠ Pending) cs → all_status f cs ≠ Pending.
Proof.
  intros Hcs. unfold all_status.
  destruct (existsb _ cs) eqn:Hex; [done|].
  destruct (forallb _ cs) eqn:Hall; [done|]. exfalso.
  assert (Hful : forallb (λ c, bool_decide (f c = Fulfilled)) cs = true);
    [|congruence].
  apply forallb_forall. intros c Hc. apply bool_decide_eq_true.
  rewrite Forall_forall in Hcs. apply list_elem_of_In in Hc.
  specialize (Hcs c Hc).
  assert (Hrej : bool_decide (f c = Rejected) = false).
  { destruct (bool_decide (f c = Rejected)) eqn:Hb; [|done].
    assert (existsb (λ c, bool_decide (f c = Rejected)) cs = true); [|congruence].
    apply existsb_exists. exists c. split; [by apply list_elem_of_In | done]. }
  apply bool_decide_eq_false in Hrej. by destruct (f c).
Qed.



Example clean_live_node_observed :
  contexts busy_run !! "n1:f1" = Some 4
  ∧ contexts (clean live_flow busy_run).2 !! "n1:f1" = Some 4
  ∧ contexts (clean live_flow busy_run).2 !! "f1" = None.
Proof. vm_compute. done. Qed.


Example shadowed_node_set_throws :
  (clean shadowing_flow busy_run).1 = Throw typeError
  ∧ contexts (clean shadowing_flow busy_run).2 !! "n1:f1" = Some 4
  ∧ trace (clean shadowing_flow busy_run).2
    = (trace busy_run
       ++ [EvCall (CClean (Inst 3 Memory) ["hasOwnProperty"]);
           EvCall (CClean (Inst 3 Memory) ["hasOwnProperty"])])%list.
Proof. vm_compute. done. Qed.

(** ** load leaves the cache and the objects alone *)

Lemma same_objects_refl (st : state) : same_objects st st.
Proof. done. Qed.

Lemma same_objects_trans (st1 st2 st3 : state) :
  same_objects st1 st2 → same_objects st2 st3 → same_objects st1 st3.
Proof. unfold same_objects. intros (-> & -> & ->) (-> & -> & ->). done. Qed.

Lemma call_all_frame (mk : inst → backend_call) (ss : list (string * sval))
    (st : state) :
  same_objects st (call_all mk ss st).2.
Proof.
  revert st. induction ss as [|[k [i|]] ss IH]; intros st; simpl; [done| |done].
  specialize (IH (log_event st (EvCall (mk i)))).
  destruct (call_all mk ss (log_event st (EvCall (mk i)))) as [[cs|e] st'];
    simpl in *; exact IH.
Qed.

Lemma load_plugin_frame (H : Host) (s : Settings)
    (plugins : list (string * plugin_entry)) (hasDefault : bool)
    (pluginName : string) (acc : loading) :
  match load_plugin H s plugins hasDefault pluginName acc with
  | inl acc' => same_objects (l_state acc) (l_state acc')
  | inr (_, st') => same_objects (l_state acc) st'
  end.
Proof.
  unfold load_plugin, stores_assign. repeat case_match; simplify_eq; done.
Qed.

Lemma load_plugins_frame (H : Host) (s : Settings)
    (plugins : list (string * plugin_entry)) (hasDefault : bool)
    (names : list string) (acc : loading) :
  match load_plugins H s plugins hasDefault names acc with
  | inl acc' => same_objects (l_state acc) (l_state acc')
  | inr (_, st') => same_objects (l_state acc) st'
  end.
Proof.
  revert acc. induction names as [|n names IH]; intros acc; simpl; [done|].
  pose proof (load_plugin_frame H s plugins hasDefault n acc) as Hstep.
  destruct (load_plugin H s plugins hasDefault n acc) as [acc'|[e st']]; [|done].
  specialize (IH acc').
  destruct (load_plugins H s plugins hasDefault names acc') as [acc''|[e st'']];
    by eapply same_objects_trans.
Qed.

Lemma resolve_default_frame (plugins : list (string * plugin_entry))
    (hasDefault : bool) (acc : loading) :
  same_objects (l_state acc) (resolve_default plugins hasDefault acc).
Proof. unfold resolve_default. repeat case_match; done. Qed.

Lemma load_frame (H : Host) (st : state) : same_objects st (load H st).2.
Proof.
  unfold load. destruct (settings st) as [s|]; [|done].
  unfold load_configured. destruct (contextStorage s) as [plugins|].
  - destruct (JsObject.hasOwnProperty plugins "hasOwnProperty"); [done|].
    pose proof (load_plugins_frame H s plugins
                  (JsObject.hasOwnProperty plugins "default")
                  (JsObject.keys plugins) (Loading st false None)) as Hloop.
    destruct (load_plugins _ _ _ _ _ _) as [acc|[e st']]; [|done].
    simpl in Hloop.
    pose proof (call_all_frame COpen (stores (l_state acc)) (l_state acc)) as Hopen.
    destruct (call_all COpen _ _) as [[promises|e] st']; simpl in Hopen.
    + pose proof (resolve_default_frame plugins
                    (JsObject.hasOwnProperty plugins "default")
                    (Loading st' (defaultIsAlias acc) (defaultName acc))) as Hres.
      simpl in Hres.
      assert (Hall : same_objects st
                (resolve_default plugins (JsObject.hasOwnProperty plugins "default")
                   (Loading st' (defaultIsAlias acc) (defaultName acc))))
        by (eapply same_objects_trans; [|exact Hres];
            by eapply same_objects_trans).
      destruct promises; [|exact Hall].
      simpl. repeat case_match; exact Hall.
    + by eapply same_objects_trans.
  - simpl. repeat case_match; done.
Qed.

(** ** Calls on the global Context *)

Lemma method_env_same (st st' : state) (l : loc) (name : string) (m : method) :
  heap st' = heap st → method_env st' l name m = method_env st l name m.
Proof. intros Hh. unfold method_env, heap_obj. by rewrite Hh. Qed.

Lemma read_same (H : Host) (st st' : state) (l : loc) (key : string) :
  heap st' = heap st → read H st' l key = read H st l key.
Proof. intros Hh. unfold read, heap_obj. by rewrite Hh. Qed.

(** After [init], and still after a [load], a call on
    [contexts['global']] runs the closure made over the seed. *)
Lemma global_dispatch (H : Host) (s : Settings) (st0 st : state) :
  st = init s st0 ∨ st = (load H (init s st0)).2 →
  let env := Closure (next (with_seed s st0)) "global" (Some (seed_of s st0))
                     (JsObject.keys (configured_map s st0)) in
  (∀ key storage callback,
     global_get H key storage callback st = ctx_get H env key storage callback st)
  ∧ (∀ storage callback,
       global_keys H storage callback st = ctx_keys H env storage callback st)
  ∧ (∀ key, read H st (seed_of s st0) key = read H (init s st0) (seed_of s st0) key).
Proof.
  intros Hst env.
  destruct (init_global s st0) as (Hg & Hm & _). simpl in Hg, Hm.
  assert (Hsame : same_objects (init s st0) st).
  { destruct Hst as [->| ->]; [done | apply load_frame]. }
  destruct Hsame as (Hc & Hh & _).
  split_and!.
  - intros key storage callback. unfold global_get.
    rewrite Hc, Hg, (method_env_same _ _ _ _ _ Hh).
    pose proof (Hm MGet) as Hget. simpl in Hget. by rewrite Hget.
  - intros storage callback. unfold global_keys.
    rewrite Hc, Hg, (method_env_same _ _ _ _ _ Hh).
    pose proof (Hm MKeys) as Hkeys. simpl in Hkeys. by rewrite Hkeys.
  - intros key. by apply read_same.
Qed.

(** ** load with a dangling default alias *)

(** When ["default"] comes first in the configuration, the alias is
    checked before anything is made: the rejection leaves the state as it
    was. *)
Lemma dangling_alias_first (H : Host) (s : Settings) (st : state)
    (alias : string) (rest : list (string * plugin_entry)) :
  settings st = Some s →
  contextStorage s = Some (("default", EString alias) :: rest) →
  JsObject.hasOwnProperty (("default", EString alias) :: rest) "hasOwnProperty"
  = false →
  JsObject.hasOwnProperty (("default", EString alias) :: rest) alias = false →
  load H st
  = (PRejected (logError "context.error-invalid-default-module"
                  [("storage", VStr alias)]), st).
Proof.
  intros Hs Hc Hshadow Halias. unfold load, load_configured.
  rewrite Hs, Hc, Hshadow.
  simpl. unfold load_plugin. simpl. by rewrite Halias.
Qed.

(** C7 fails on the code: with [{a: {module: f3}, default: "missing"}] the
    loop reaches ["a"] first, calls its factory and registers the
    instance, and only then finds the alias dangling and rejects. *)
Theorem dangling_alias_after_factory :
  let r := load empty_host (init dangling_settings booted) in
  r.1 = PRejected (logError "context.error-invalid-default-module"
                     [("storage", VStr "missing")])
  ∧ trace (init dangling_settings booted) = [EvNew (Inst 2 Memory)]
  ∧ trace r.2 = [EvNew (Inst 2 Memory); EvNew (Inst 3 (Plugin 3 (PluginConfig None [("userDir", VUndefined)])))]
  ∧ JsObject.own (stores r.2) "a" = Some (Store (Inst 3 (Plugin 3 (PluginConfig None [("userDir", VUndefined)])))).
Proof. vm_compute. done. Qed.

(** ** keys on a seeded Context *)

Lemma set_add_all_NoDup (seen xs : list jsval) :
  NoDup seen → NoDup (set_add_all seen xs).
Proof.
  revert seen. induction xs as [|x xs IH]; intros seen Hseen; simpl; [done|].
  apply IH. case_decide as Hin; [done|].
  apply NoDup_app. split_and!; [done| |apply NoDup_singleton].
  intros y Hy Hyx. apply list_elem_of_singleton in Hyx as ->. done.
Qed.

Lemma elem_of_set_add_all (seen xs : list jsval) (x : jsval) :
  x ∈ set_add_all seen xs ↔ x ∈ seen ∨ x ∈ xs.
Proof.
  revert seen. induction xs as [|y xs IH]; intros seen; simpl.
  - split; [by left | intros [?|Hx]; [done | by apply elem_of_nil in Hx]].
  - rewrite IH, elem_of_cons. case_decide as Hin.
    + split; [intros [?|?]; auto | intros [?|[->|?]]; auto].
    + rewrite elem_of_app, list_elem_of_singleton.
      split; [intros [[?|?]|?]; auto | intros [?|[?|?]]; auto].
Qed.

Lemma set_add_all_prefix (seen xs : list jsval) :
  seen `prefix_of` set_add_all seen xs.
Proof.
  revert seen. induction xs as [|x xs IH]; intros seen; simpl; [done|].
  case_decide; [apply IH|].
  trans (seen ++ [x])%list; [by apply prefix_app_r | apply IH].
Qed.

Lemma set_add_all_app (seen xs ys : list jsval) :
  set_add_all seen (xs ++ ys) = set_add_all (set_add_all seen xs) ys.
Proof. revert seen. induction xs as [|x xs IH]; intros seen; simpl; [done|apply IH]. Qed.

Lemma set_add_all_fresh (seen xs : list jsval) :
  NoDup xs → (∀ x, x ∈ xs → x ∉ seen) →
  set_add_all seen xs = (seen ++ xs)%list.
Proof.
  revert seen. induction xs as [|x xs IH]; intros seen Hxs Hfresh; simpl.
  - by rewrite app_nil_r.
  - apply NoDup_cons in Hxs as [Hx Hxs].
    rewrite decide_False by (apply Hfresh, list_elem_of_here).
    rewrite IH; [by rewrite <- app_assoc|done|].
    intros y Hy Hin. apply elem_of_app in Hin as [Hin|Hin].
    + by apply (Hfresh y); [apply list_elem_of_further|].
    + apply list_elem_of_singleton in Hin as ->. done.
Qed.

Lemma merge_keys_union (env : closure) (reported : keys_val) :
  ∃ ks, merge_keys env reported = KArray ks
        ∧ NoDup ks
        ∧ (∀ x, x ∈ ks ↔ x ∈ VStr <$> cl_seedKeys env ∨ x ∈ concat [] reported)
        ∧ (∀ k, k ∈ cl_seedKeys env → VStr k ∈ ks).
Proof.
  eexists. split; [reflexivity|].
  assert (Hmem : ∀ x, x ∈ array_from_set (concat (VStr <$> cl_seedKeys env) reported)
                      ↔ x ∈ VStr <$> cl_seedKeys env ∨ x ∈ concat [] reported).
  { intros x. unfold array_from_set. rewrite elem_of_set_add_all.
    destruct reported; simpl; rewrite elem_of_app; split;
      intros [Hx|Hx]; auto; by apply elem_of_nil in Hx. }
  split_and!.
  - apply set_add_all_NoDup, NoDup_nil_2.
  - exact Hmem.
  - intros k Hk. apply Hmem. left. by apply list_elem_of_fmap_2.
Qed.

(** What [keys] makes of an array the backend hands over: the seed keys
    first, then the entries of the array not seen before. *)
Lemma merge_keys_array (env : closure) (reported : list jsval) :
  ∃ ks, merge_keys env (KArray reported) = KArray ks
        ∧ NoDup ks
        ∧ (∀ x, x ∈ ks ↔ x ∈ VStr <$> cl_seedKeys env ∨ x ∈ reported)
        ∧ (NoDup (cl_seedKeys env) → (VStr <$> cl_seedKeys env) `prefix_of` ks).
Proof.
  destruct (merge_keys_union env (KArray reported)) as (ks & Hks & Hnd & Hmem & _).
  exists ks. split_and!; [done|done|exact Hmem|].
  intros Hseed. unfold merge_keys in Hks. injection Hks as <-.
  unfold array_from_set. simpl. rewrite set_add_all_app.
  rewrite (set_add_all_fresh [] (VStr <$> cl_seedKeys env)).
  - apply set_add_all_prefix.
  - apply NoDup_fmap_2; [|done]. by intros x y [= ->].
  - intros x _ Hin. by apply elem_of_nil in Hin.
Qed.

(** C9, as the code has it.  On a Context made with a seed, [keys] hands
    over, as its return value without a callback and as the callback's
    second argument with one, an array made of the seed keys recorded
    when the Context was made, followed by the entries of the array the
    backend reported that are not in it yet: no duplicates, every seed
    key, every reported entry, and nothing else.  A reply that is not an
    array is added as one entry.  The global Context that [init] leaves
    is such a Context; its recorded seed keys are the keys the
    initial-values object has when [init] runs. *)
Theorem keys_merges_seed (H : Host) (env : closure) (seed : loc)
    (storage callback cb : jsval) (i : inst) (st : state) :
  cl_seed env = Some seed →
  select_store H storage callback st = Return (Store i, cb) →
  ctx_keys H env storage callback st
  = Return
      (if truthy cb then
         Done i (KOther VUndefined)
           (prod_map id (merge_keys env)
              <$> k_calls (store_keys H i (cl_scope env) true))
       else
         Done i (merge_keys env (k_ret (store_keys H i (cl_scope env) false))) [])
  ∧ (∀ reported, ∃ ks,
      merge_keys env (KArray reported) = KArray ks
      ∧ NoDup ks
      ∧ (∀ x, x ∈ ks ↔ x ∈ VStr <$> cl_seedKeys env ∨ x ∈ reported)
      ∧ (NoDup (cl_seedKeys env) →
         (VStr <$> cl_seedKeys env) `prefix_of` ks))
  ∧ (∀ v, ∃ ks,
      merge_keys env (KOther v) = KArray ks
      ∧ NoDup ks
      ∧ (∀ x, x ∈ ks ↔ x ∈ VStr <$> cl_seedKeys env ∨ x = v))
  ∧ (∀ s st0 st', st' = init s st0 ∨ st' = (load H (init s st0)).2 →
       ∃ genv, cl_scope genv = "global"
               ∧ cl_seed genv = Some (seed_of s st0)
               ∧ cl_seedKeys genv = JsObject.keys (configured_map s st0)
               ∧ ∀ storage callback,
                   global_keys H storage callback st'
                   = ctx_keys H genv storage callback st').
Proof.
  intros Hseed Hsel. split_and!; [|apply merge_keys_array| |].
  - unfold ctx_keys. rewrite Hsel, Hseed. by destruct (truthy cb).
  - intros v.
    destruct (merge_keys_union env (KOther v)) as (ks & Hks & Hnd & Hmem & _).
    exists ks. split_and!; [done|done|]. intros x. rewrite Hmem. simpl.
    by rewrite list_elem_of_singleton.
  - intros s st0 st' Hst.
    destruct (global_dispatch H s st0 st' Hst) as (_ & Hkeys & _).
    exists (Closure (next (with_seed s st0)) "global" (Some (seed_of s st0))
                    (JsObject.keys (configured_map s st0))).
    split_and!; [reflexivity | reflexivity | reflexivity | exact Hkeys].
Qed.

Lemma keys_merges_seed_witness :
  ctx_keys empty_host global_env (VFun 7) VUndefined plain_run
  = Return (Done (Inst 3 Memory) (KOther VUndefined) [(VNull, KArray [VStr "keys"])])
  ∧ ∃ ks, merge_keys global_env (KArray [VStr "a"; VStr "keys"; VStr "a"]) = KArray ks
          ∧ NoDup ks ∧ VStr "keys" ∈ ks ∧ VStr "a" ∈ ks.
Proof.
  destruct (keys_merges_seed empty_host global_env 0 (VFun 7) VUndefined (VFun 7)
              (Inst 3 Memory) plain_run eq_refl eq_refl) as (Hrun & Hmerge & _).
  split; [exact Hrun|].
  destruct (Hmerge [VStr "a"; VStr "keys"; VStr "a"])
    as (ks & Hks & Hnodup & Hmem & _).
  exists ks. split_and!; [done|done| |].
  - apply Hmem. left. apply list_elem_of_here.
  - apply Hmem. right. apply list_elem_of_here.
Defined.

Example keys_merge_order :
  merge_keys global_env (KArray [VStr "a"; VStr "keys"; VStr "a"])
  = KArray [VStr "keys"; VStr "a"].
Proof. reflexivity. Qed.

(** C9 as stated fails in two ways.  After [init] has run twice on the
    same initial-values object [{keys: 5}], [keys()] on the global
    Context lists ["get"] and ["set"], which are neither keys of that map
    nor reported by the backend.  And after [delete("global")], the
    Context that [get("global")] makes and caches under ["global"] has no
    seed: its [keys()] hands over the backend's reply, without ["keys"]. *)
Lemma keys_not_always_union :
  ¬ keys_is_union empty_host ["keys"] twice_init_run
  ∧ ¬ keys_is_union empty_host ["keys"] regot_global_run.
Proof.
  split; intros (d & ks & reported & Hrun & Hret & Hrep & _ & Hmem).
  - assert (Hd : global_keys empty_host VUndefined VUndefined twice_init_run
                 = Return (Done (Inst 4 Memory)
                             (KArray [VStr "keys"; VStr "get"; VStr "set"]) []))
      by (vm_compute; reflexivity).
    rewrite Hd in Hrun. injection Hrun as <-. simpl in Hret, Hrep.
    injection Hret as <-. injection Hrep as <-.
    destruct (proj1 (Hmem (VStr "get"))) as [Hin|Hin].
    + apply list_elem_of_further, list_elem_of_here.
    + simpl in Hin. apply list_elem_of_singleton in Hin. discriminate Hin.
    + by apply elem_of_nil in Hin.
  - assert (Hd : global_keys empty_host VUndefined VUndefined regot_global_run
                 = Return (Done (Inst 3 Memory) (KArray []) []))
      by (vm_compute; reflexivity).
    rewrite Hd in Hrun. injection Hrun as <-. simpl in Hret, Hrep.
    injection Hret as <-. injection Hrep as <-.
    assert (Hin : VStr "keys" ∈ ([] : list jsval)).
    { apply Hmem. left. apply list_elem_of_here. }
    by apply elem_of_nil in Hin.
Qed.

Example keys_after_second_init :
  global_keys empty_host VUndefined VUndefined twice_init_run
  = Return (Done (Inst 4 Memory) (KArray [VStr "keys"; VStr "get"; VStr "set"]) [])
  ∧ JsObject.keys (configured_map plain_settings booted) = ["keys"].
Proof. vm_compute. done. Qed.

Example keys_after_delete_global :
  global_keys empty_host VUndefined VUndefined plain_run
  = Return (Done (Inst 3 Memory) (KArray [VStr "keys"]) [])
  ∧ global_keys empty_host VUndefined VUndefined regot_global_run
    = Return (Done (Inst 3 Memory) (KArray []) []).
Proof. vm_compute. done. Qed.

(** ** get on a seeded Context *)

Lemma init_read (H : Host) (s : Settings) (st : state) (key : string) :
  key ∉ ["get"; "set"; "keys"] →
  read H (init s st) (seed_of s st) key = configured_value H s st key.
Proof.
  intros Hkey. unfold read, configured_value.
  destruct (init_global s st) as (_ & _ & Hothers & _). simpl in Hothers.
  by rewrite Hothers.
Qed.

Lemma init_read_method (H : Host) (s : Settings) (st : state) (m : method) :
  ∃ env, read H (init s st) (seed_of s st) (method_name m) = VMethod m env.
Proof.
  destruct (init_global s st) as (_ & _ & _ & Hm). simpl in Hm.
  eexists. unfold read. by rewrite Hm.
Qed.

(** C1, as the code has it.  On a Context made with a seed (the global
    one), [get] hands over, as its return value without a callback and as
    the callback's second argument with one, what the backend reported,
    unless that is [undefined], when it hands over the property [key] of
    the seed object; on a Context made without a seed it hands the
    backend's result on as it is.  The global Context is the seeded one;
    its seed object is the configured initial-values map itself, and once
    [init] has run its property [key] is the configured one for every
    [key] other than ["get"], ["set"] and ["keys"]. *)
Theorem get_merges_seed (H : Host) (env : closure) (key : string)
    (storage callback cb : jsval) (i : inst) (st : state) :
  select_store H storage callback st = Return (Store i, cb) →
  (∀ seed, cl_seed env = Some seed →
     ctx_get H env key storage callback st
     = Return
         (if truthy cb then
            Done i VUndefined
              (prod_map id (merge_value H st seed key)
                 <$> g_calls (store_get H i (cl_scope env) key true))
          else
            Done i (merge_value H st seed key
                      (g_ret (store_get H i (cl_scope env) key false))) [])
     ∧ merge_value H st seed key VUndefined = read H st seed key
     ∧ (∀ v, v ≠ VUndefined → merge_value H st seed key v = v))
  ∧ (cl_seed env = None →
     ctx_get H env key storage callback st
     = Return
         (Done i (g_ret (store_get H i (cl_scope env) key (is_function cb)))
            (if is_function cb
             then g_calls (store_get H i (cl_scope env) key (is_function cb))
             else [])))
  ∧ (∀ s st0 st', st' = init s st0 ∨ st' = (load H (init s st0)).2 →
       ∃ genv, cl_scope genv = "global"
               ∧ cl_seed genv = Some (seed_of s st0)
               ∧ (∀ storage callback,
                    global_get H key storage callback st'
                    = ctx_get H genv key storage callback st')
               ∧ (key ∉ ["get"; "set"; "keys"] →
                  read H st' (seed_of s st0) key = configured_value H s st0 key)).
Proof.
  intros Hsel. split_and!.
  - intros seed Hseed. split_and!.
    + unfold ctx_get. rewrite Hsel, Hseed. by destruct (truthy cb).
    + reflexivity.
    + intros v Hv. unfold merge_value. by destruct v.
  - intros Hseed. unfold ctx_get. by rewrite Hsel, Hseed.
  - intros s st0 st' Hst.
    destruct (global_dispatch H s st0 st' Hst) as (Hget & _ & Hread).
    exists (Closure (next (with_seed s st0)) "global" (Some (seed_of s st0))
                    (JsObject.keys (configured_map s st0))).
    split_and!; [reflexivity | reflexivity | apply Hget |].
    intros Hkey. rewrite Hread. by apply init_read.
Qed.

Lemma get_merges_seed_witness :
  ctx_get empty_host global_env "keys" (VFun 7) VUndefined plain_run
  = Return (Done (Inst 3 Memory) VUndefined
              [(VNull, read empty_host plain_run 0 "keys")])
  ∧ ∃ genv, cl_seed genv = Some (seed_of plain_settings booted)
            ∧ read empty_host plain_run (seed_of plain_settings booted) "colour"
              = configured_value empty_host plain_settings booted "colour".
Proof.
  assert (Hsel : select_store empty_host (VFun 7) VUndefined plain_run
                 = Return (Store (Inst 3 Memory), VFun 7))
    by (vm_compute; reflexivity).
  destruct (get_merges_seed empty_host global_env "keys" (VFun 7) VUndefined
              (VFun 7) (Inst 3 Memory) plain_run Hsel)
    as (Hseeded & _ & _).
  destruct (get_merges_seed empty_host global_env "colour" (VFun 7) VUndefined
              (VFun 7) (Inst 3 Memory) plain_run Hsel)
    as (_ & _ & Hinit).
  split.
  - exact (proj1 (Hseeded 0 eq_refl)).
  - assert (Hst : plain_run = init plain_settings booted
                  ∨ plain_run = (load empty_host (init plain_settings booted)).2)
      by (right; unfold plain_run; reflexivity).
    destruct (Hinit plain_settings booted plain_run Hst)
      as (genv & _ & Hgenv & _ & Hread).
    exists genv. split; [exact Hgenv|].
    apply Hread.
    intros Hin. repeat (apply elem_of_cons in Hin as [Hin|Hin]; [discriminate|]).
    by apply elem_of_nil in Hin.
Defined.

(** C1 as stated fails at the key ["keys"]: the map is configured as
    [{keys: 5}], the backend reports [undefined], and [get] hands over the
    facade's own [keys] method, not 5. *)
Lemma global_get_yields_method :
  ¬ (∀ d, global_get empty_host "keys" VUndefined VUndefined plain_run = Return d →
          g_ret (store_get empty_host (d_store d) "global" "keys" false) = VUndefined →
          d_ret d = configured_value empty_host plain_settings booted "keys").
Proof.
  intros Hclaim.
  specialize (Hclaim (Done (Inst 3 Memory) (VMethod MKeys global_env) [])
                eq_refl eq_refl).
  discriminate Hclaim.
Qed.

Example global_get_observed :
  global_get empty_host "keys" VUndefined VUndefined plain_run
  = Return (Done (Inst 3 Memory) (VMethod MKeys global_env) [])
  ∧ configured_value empty_host plain_settings booted "keys" = VNum 5.
Proof. vm_compute. done. Qed.

(** * Further properties of the module *)

(** ** The scope resolver and its cache *)

Lemma getContext_not_given (id : string) (flowId : option string) (st : state) :
  given flowId = false → getContext id flowId st = getContextOf id st.
Proof.
  intros Hg. unfold getContext, getContextOf, composite.
  destruct flowId as [f|]; rewrite ?Hg;
    by destruct (contexts_own st id) as [[c|]|e].
Qed.

Lemma getContextOf_miss (f : string) (st : state) :
  contexts st !! "hasOwnProperty" = None → contexts st !! f = None →
  (getContextOf f st).1 = Return (next st)
  ∧ next (getContextOf f st).2 = S (S (next st))
  ∧ contexts (getContextOf f st).2
    = (if decide (f = "__proto__") then contexts st
       else <[f := next st]> (contexts st))
  ∧ contexts_proto (getContextOf f st).2
    = (if decide (f = "__proto__") then Some (next st) else contexts_proto st).
Proof.
  intros Hp Hf. destruct (getContextOf_contexts f st Hp) as (Hret & Hcs & _).
  unfold cached_or in Hret. rewrite Hf in Hret, Hcs.
  split_and!; [done| |done|].
  - rewrite (getContextOf_plain f st Hp), Hf. cbv zeta. cbn [snd].
    rewrite contexts_assign_next. cbn [next set_prop set_heap].
    by destruct (createContext_plain f st) as (_ & _ & _ & _ & _ & ->).
  - rewrite (getContextOf_plain f st Hp), Hf. cbv zeta. cbn [snd].
    destruct (createContext_plain f st) as (_ & _ & _ & Hctx & Hproto & _).
    destruct (decide (f = "__proto__")) as [->|Hne].
    + by rewrite contexts_assign_proto
        by (cbn [contexts set_prop set_heap]; by rewrite Hctx).
    + rewrite contexts_assign_plain by done.
      cbn [contexts_proto set_contexts set_prop set_heap]. exact Hproto.
Qed.



Example prototype_scope_never_cached :
  (getContext "__proto__" None plain_run).1 = Return 4
  ∧ (getContext "__proto__" None (getContext "__proto__" None plain_run).2).1
    = Return 6
  ∧ contexts (getContext "__proto__" None plain_run).2 = contexts plain_run.
Proof. vm_compute. done. Qed.

Example shadowed_cache_throws :
  (getContext "hasOwnProperty" None plain_run).1 = Return 4
  ∧ (getContext "global" None (getContext "hasOwnProperty" None plain_run).2).1
    = Throw typeError.
Proof. vm_compute. done. Qed.

(** ** A new node Context and its links *)

(** X2.  With the global Context cached and no Context under
    [hasOwnProperty], the Context made for a node inside a flow is a new
    object carrying the three methods over scope [localId:flowId], a
    [flow] property that is the flow's Context, cached or made on the
    spot, and a [global] property that is the global Context.  The flow's
    Context is the one [get(flowId)] resolves to afterwards, unless the
    flow id is [__proto__], when it was made the prototype of the cache,
    or [hasOwnProperty], when every resolution throws from now on. *)
Theorem getContext_links (localId f : string) (g : loc) (st : state) :
  f ≠ "" →
  contexts st !! "hasOwnProperty" = None →
  contexts st !! "global" = Some g →
  contexts st !! composite localId (Some f) = None →
  let r := getContext localId (Some f) st in
  let flow := cached_or st f (S (S (next st))) in
  let env := Closure (S (next st)) (localId +:+ ":" +:+ f) None [] in
  r.1 = Return (next st)
  ∧ heap_obj r.2 (next st)
    = [("get", VMethod MGet env); ("set", VMethod MSet env);
       ("keys", VMethod MKeys env); ("flow", VObj flow); ("global", VObj g)]
  ∧ (f ≠ "__proto__" → contexts r.2 !! f = Some flow)
  ∧ (f ≠ "__proto__" → f ≠ "hasOwnProperty" →
     getContext f None r.2 = (Return flow, r.2))
  ∧ (f = "__proto__" → contexts st !! f = None →
     contexts r.2 !! f = None ∧ contexts_proto r.2 = Some flow)
  ∧ (f = "hasOwnProperty" →
     ∀ id flowId, getContext id flowId r.2 = (Throw typeError, r.2)).
Proof.
  intros Hf Hp Hg Hmiss. cbv zeta.
  rewrite (composite_joined localId f Hf) in Hmiss.
  set (scope := localId +:+ ":" +:+ f) in *.
  assert (Hnf : scope ≠ f) by apply joined_not_flow.
  destruct (getContext_flow_contexts localId f st Hf Hp Hmiss) as (Hret & Hcs).
  fold scope in Hcs.
  destruct (createContext_plain scope st)
    as (_ & Hobj & _ & Hctx & Hproto & Hnext).
  set (st1 := (createContext scope None st).2) in *.
  assert (Hp1 : contexts st1 !! "hasOwnProperty" = None) by (by rewrite Hctx).
  destruct (getContextOf_contexts f st1 Hp1) as (_ & Hcs2 & Hkeep & _).
  rewrite Hctx, Hnext in Hcs2.
  split_and!; [done| | | | |].
  - unfold scope. rewrite (getContext_flow_miss localId f st Hf Hp Hmiss).
    fold scope. fold st1. cbn [snd].
    rewrite contexts_assign_heap, heap_obj_set_prop, heap_obj_set_prop.
    rewrite Hkeep by (rewrite Hnext; lia). rewrite Hobj.
    rewrite (global_ref_own _ g).
    + rewrite Hnext. reflexivity.
    + change (contexts (getContextOf f st1).2 !! "global" = Some g).
      apply getContextOf_keeps. by rewrite Hctx.
  - intros Hne. rewrite Hcs, lookup_insert_ne by done. unfold cached_or.
    destruct (contexts st !! f) as [c|] eqn:Hc; [done|].
    rewrite decide_False by done. apply lookup_insert_eq.
  - intros Hne Hns. apply getContext_hit.
    + rewrite Hcs, lookup_insert_ne by (by apply joined_not_plain).
      destruct (contexts st !! f) as [c|] eqn:Hc; [done|].
      rewrite decide_False by done. by rewrite lookup_insert_ne.
    + simpl composite. rewrite Hcs, lookup_insert_ne by done.
      unfold cached_or.
      destruct (contexts st !! f) as [c|] eqn:Hc; [done|].
      rewrite decide_False by done. apply lookup_insert_eq.
  - intros -> Hnone. split.
    + rewrite Hcs, lookup_insert_ne by done. rewrite Hnone.
      by rewrite decide_True.
    + unfold scope. rewrite (getContext_flow_miss localId "__proto__" st Hf Hp Hmiss).
      fold scope. fold st1. cbn [snd].
      rewrite contexts_assign_plain by (by apply joined_not_plain).
      change (contexts_proto (getContextOf "__proto__" st1).2
              = Some (cached_or st "__proto__" (S (S (next st))))).
      unfold cached_or. rewrite Hnone.
      assert (Hnone1 : contexts st1 !! "__proto__" = None) by (by rewrite Hctx).
      destruct (getContextOf_miss "__proto__" st1 Hp1 Hnone1)
        as (_ & _ & _ & Hpr).
      by rewrite Hpr, decide_True, Hnext.
  - intros -> id flowId. eapply getContext_shadowed.
    rewrite Hcs, lookup_insert_ne by (by apply joined_not_plain).
    rewrite Hp. rewrite decide_False by done. apply lookup_insert_eq.
Qed.

Lemma getContext_links_witness :
  (getContext "n1" (Some "f1") plain_run).1 = Return (next plain_run)
  ∧ heap_obj busy_run (next plain_run)
    = [("get", VMethod MGet (Closure 5 "n1:f1" None []));
       ("set", VMethod MSet (Closure 5 "n1:f1" None []));
       ("keys", VMethod MKeys (Closure 5 "n1:f1" None []));
       ("flow", VObj 6); ("global", VObj 0)]
  ∧ getContext "f1" None busy_run = (Return 6, busy_run).
Proof.
  destruct (getContext_links "n1" "f1" 0 plain_run)
    as (Hret & Hobj & _ & Hflow & _);
    [discriminate|vm_compute; reflexivity..|].
  split_and!; [exact Hret|exact Hobj|].
  apply Hflow; discriminate.
Defined.

(** ** load with a configuration *)

Lemma assign_nonempty {V} (o : list (string * V)) (k : string) (v : V) :
  o ≠ [] → JsObject.assign o k v ≠ [].
Proof.
  intros Ho. unfold JsObject.assign.
  destruct (JsObject.hasOwnProperty o k).
  - destruct o as [|[k' v'] o]; simpl; [done|]. by case_decide.
  - destruct (decide (k = "__proto__")); [done|].
    destruct (JsObject.array_index k).
    + destruct o as [|[k' v'] o]; simpl; [done|]. by repeat case_match.
    + by destruct o.
Qed.

Lemma slot_stores_assign_eq (st : state) (k : string) (i : inst) :
  slot (stores_assign st k (Store i)) k = Store i.
Proof.
  unfold stores_assign, slot.
  destruct (decide (k = "__proto__")) as [->|Hk].
  - unfold JsObject.hasOwnProperty.
    destruct (JsObject.own (stores st) "__proto__") as [v|] eqn:Hown; simpl.
    + rewrite JsObjectFacts.own_assign_eq; [done|]. right. by rewrite Hown.
    + by rewrite Hown.
  - simpl. by rewrite JsObjectFacts.own_assign_eq by (by left).
Qed.

Lemma slot_stores_assign_ne (st : state) (k k' : string) (v : sval) :
  k ≠ k' → slot (stores_assign st k v) k' = slot st k'.
Proof.
  intros Hne. unfold stores_assign, slot.
  destruct (decide (k = "__proto__")) as [->|Hk].
  - destruct (JsObject.hasOwnProperty (stores st) "__proto__"); simpl.
    + by rewrite JsObjectFacts.own_assign_ne.
    + destruct v; simpl; [|done].
      destruct (JsObject.own (stores st) k'); [done|].
      by rewrite !decide_False by done.
  - simpl. by rewrite JsObjectFacts.own_assign_ne.
Qed.

Lemma stores_assign_nonempty (st : state) (k : string) (v : sval) :
  stores st ≠ [] → stores (stores_assign st k v) ≠ [].
Proof.
  intros Hne. unfold stores_assign.
  repeat case_match; simpl; try done; by apply assign_nonempty.
Qed.

Lemma stores_assign_own_ne (st : state) (k k' : string) (v : sval) :
  k ≠ k' →
  JsObject.own (stores (stores_assign st k v)) k' = JsObject.own (stores st) k'.
Proof.
  intros Hne. unfold stores_assign.
  repeat case_match; simpl; try done; by rewrite JsObjectFacts.own_assign_ne.
Qed.

Lemma stores_assign_own_eq (st : state) (k : string) (v : sval) :
  k ≠ "__proto__" →
  JsObject.own (stores (stores_assign st k v)) k = Some v.
Proof.
  intros Hk. unfold stores_assign. rewrite decide_False by done. simpl.
  by rewrite JsObjectFacts.own_assign_eq by (by left).
Qed.

Lemma call_all_length (mk : inst → backend_call) (ss : list (string * sval))
    (st : state) (cs : list backend_call) :
  (call_all mk ss st).1 = Return cs → length cs = length ss.
Proof.
  revert st cs. induction ss as [|[k [i|]] ss IH]; intros st cs; simpl.
  - by intros [= <-].
  - specialize (IH (log_event st (EvCall (mk i)))).
    destruct (call_all mk ss (log_event st (EvCall (mk i)))) as [[cs'|e] st'];
      simpl in *; [|done].
    intros [= <-]. simpl. by rewrite (IH cs').
  - done.
Qed.

(** The three ways a pass of the loop goes on to the next entry. *)
Lemma load_plugin_continues (H : Host) (s : Settings)
    (plugins : list (string * plugin_entry)) (hasDefault : bool)
    (k : string) (acc acc' : loading) :
  load_plugin H s plugins hasDefault k acc = inl acc' →
  (acc' = acc ∧ (JsObject.own plugins k = None ∨ k = "_"))
  ∨ (k = "default" ∧ acc' = Loading (l_state acc) true (defaultName acc)
     ∧ ∃ a, JsObject.own plugins k = Some (EString a)
            ∧ JsObject.hasOwnProperty plugins a = true)
  ∨ (k ≠ "_"
     ∧ ∃ m config f,
         JsObject.own plugins k = Some (EObject (Some m) config)
         ∧ acc' = Loading (registered s k f config (l_state acc))
                          (defaultIsAlias acc)
                          (if negb hasDefault && negb (named (defaultName acc))
                           then Some k else defaultName acc)).
Proof.
  unfold load_plugin. intros Hstep.
  destruct (JsObject.own plugins k) as [entry|] eqn:Hown;
    [|left; split; [by simplify_eq | by left]].
  destruct (decide (k = "_")) as [->|Hk];
    [left; split; [by simplify_eq | by right]|].
  destruct entry as [a|[m|] config]; [| |done].
  - destruct (decide (k = "default")) as [->|]; [|done].
    destruct (JsObject.hasOwnProperty plugins a) eqn:Ha; [|done].
    simpl in Hstep. right; left. split_and!; [done|by simplify_eq|by exists a].
  - right; right. split; [done|].
    destruct m as [n|f].
    + destruct (require_builtin H n) as [f|]; [|done].
      destruct (construct H f (copySettings config s)); [done|].
      exists (ModName n), config, f. split; [done|]. by simplify_eq.
    + destruct (construct H f (copySettings config s)); [done|].
      exists (ModFactory f), config, f. split; [done|]. by simplify_eq.
Qed.

Lemma load_plugins_nonempty (H : Host) (s : Settings)
    (plugins : list (string * plugin_entry)) (hasDefault : bool)
    (names : list string) (acc acc' : loading) :
  load_plugins H s plugins hasDefault names acc = inl acc' →
  stores (l_state acc) ≠ [] → stores (l_state acc') ≠ [].
Proof.
  revert acc. induction names as [|k names IH]; intros acc; simpl.
  - by intros [= <-].
  - destruct (load_plugin H s plugins hasDefault k acc) as [acc1|r] eqn:Hstep;
      [|done].
    intros Hrest Hne. apply (IH acc1 Hrest).
    apply load_plugin_continues in Hstep
      as [[-> _]|[(_ & -> & _)|(_ & m & config & f & _ & ->)]]; try done.
    by apply stores_assign_nonempty.
Qed.

Lemma load_plugins_alias (H : Host) (s : Settings)
    (plugins : list (string * plugin_entry)) (hasDefault : bool) (a : string)
    (names : list string) (acc acc' : loading) :
  JsObject.own plugins "default" = Some (EString a) →
  load_plugins H s plugins hasDefault names acc = inl acc' →
  defaultIsAlias acc = true ∨ "default" ∈ names →
  defaultIsAlias acc' = true.
Proof.
  intros Hdefault. revert acc. induction names as [|k names IH]; intros acc; simpl.
  - intros [= <-] [?|Hin]; [done|by apply elem_of_nil in Hin].
  - destruct (load_plugin H s plugins hasDefault k acc) as [acc1|r] eqn:Hstep;
      [|done].
    intros Hrest Hor. apply (IH acc1 Hrest).
    apply load_plugin_continues in Hstep
      as [[-> Hskip]|[(_ & -> & _)|(Hk & m & config & f & Hown & ->)]].
    + destruct Hor as [?|Hin]; [by left|].
      apply elem_of_cons in Hin as [<-|Hin]; [|by right].
      destruct Hskip as [Hnone|?]; [congruence|done].
    + by left.
    + simpl. destruct Hor as [?|Hin]; [by left|].
      apply elem_of_cons in Hin as [<-|Hin]; [congruence|by right].
Qed.

(** A loop that got past the entry ["default"] has found the name it
    stands for among the entries. *)
Lemma load_plugins_alias_checked (H : Host) (s : Settings)
    (plugins : list (string * plugin_entry)) (hasDefault : bool) (a : string)
    (names : list string) (acc acc' : loading) :
  JsObject.own plugins "default" = Some (EString a) →
  load_plugins H s plugins hasDefault names acc = inl acc' →
  "default" ∈ names →
  JsObject.hasOwnProperty plugins a = true.
Proof.
  intros Hdefault. revert acc. induction names as [|k names IH]; intros acc; simpl.
  - intros _ Hin. by apply elem_of_nil in Hin.
  - destruct (load_plugin H s plugins hasDefault k acc) as [acc1|r] eqn:Hstep;
      [|done].
    intros Hrest Hin.
    apply elem_of_cons in Hin as [<-|Hin]; [|by apply (IH acc1)].
    apply load_plugin_continues in Hstep
      as [[-> Hskip]|[(_ & _ & a' & Hown & Ha)|(Hk & m & config & f & Hown & _)]].
    + destruct Hskip as [Hnone|?]; [congruence|done].
    + congruence.
    + congruence.
Qed.

(** What [load] does once the loop and the [open] calls went through with
    something registered. *)
Lemma load_resolved (H : Host) (s : Settings) (st : state)
    (plugins : list (string * plugin_entry)) (cs : list backend_call) :
  settings st = Some s → contextStorage s = Some plugins →
  stores st ≠ [] →
  (load H st).1 = PAll cs →
  ∃ acc st2,
    JsObject.hasOwnProperty plugins "hasOwnProperty" = false
    ∧ load_plugins H s plugins (JsObject.hasOwnProperty plugins "default")
                 (JsObject.keys plugins) (Loading st false None) = inl acc
    ∧ call_all COpen (stores (l_state acc)) (l_state acc) = (Return cs, st2)
    ∧ stores st2 = stores (l_state acc)
    ∧ stores_proto st2 = stores_proto (l_state acc)
    ∧ (load H st).2
      = set_hasConfiguredStore
          (resolve_default plugins (JsObject.hasOwnProperty plugins "default")
             (Loading st2 (defaultIsAlias acc) (defaultName acc)))
          true.
Proof.
  intros Hs Hc Hne. unfold load, load_configured. rewrite Hs, Hc.
  destruct (JsObject.hasOwnProperty plugins "hasOwnProperty"); [done|].
  destruct (load_plugins H s plugins _ _ _) as [acc|[e st1]] eqn:Hloop; [|done].
  pose proof (load_plugins_nonempty _ _ _ _ _ _ _ Hloop Hne) as Hne1.
  pose proof (call_all_length COpen (stores (l_state acc)) (l_state acc)) as Hlen.
  pose proof (call_all_stores COpen (stores (l_state acc)) (l_state acc))
    as (Hstores & _ & Hproto).
  destruct (call_all COpen _ _) as [[promises|e] st2] eqn:Hopen; [|done].
  simpl in Hlen, Hstores, Hproto. specialize (Hlen promises eq_refl).
  destruct promises as [|p promises].
  { destruct (stores (l_state acc)); [done|discriminate]. }
  simpl. intros [= <-]. by exists acc, st2.
Qed.

Lemma slot_stores (st st' : state) (k : string) :
  stores st' = stores st → stores_proto st' = stores_proto st →
  slot st' k = slot st k.
Proof. intros Hs Hp. unfold slot. by rewrite Hs, Hp. Qed.

Lemma keys_own {V} (o : list (string * V)) (k : string) :
  k ∈ JsObject.keys o → is_Some (JsObject.own o k).
Proof.
  intros Hin. destruct (JsObject.own o k) eqn:Hown; [done|].
  by apply JsObjectFacts.own_None_keys in Hown.
Qed.

Lemma plugin_slot_assign (st : state) (k k' : string) (i : inst) (f : nat)
    (config : plugin_config) :
  inst_kind i = Plugin f config →
  (k' = k ∨ plugin_slot (slot st k')) →
  plugin_slot (slot (stores_assign st k (Store i)) k').
Proof.
  intros Hi Hor. destruct (decide (k = k')) as [->|Hne].
  - rewrite slot_stores_assign_eq. by exists i, f, config.
  - rewrite slot_stores_assign_ne by done. by destruct Hor as [->|?].
Qed.

(** Every entry the loop got past, other than ["_"] and ["default"], is
    bound to an instance its factory made. *)
Lemma load_plugins_registers (H : Host) (s : Settings)
    (plugins : list (string * plugin_entry)) (hasDefault : bool)
    (names : list string) (acc acc' : loading) (n : string) :
  Forall (λ k, is_Some (JsObject.own plugins k)) names →
  load_plugins H s plugins hasDefault names acc = inl acc' →
  n ≠ "_" → n ≠ "default" →
  n ∈ names ∨ plugin_slot (slot (l_state acc) n) →
  plugin_slot (slot (l_state acc') n).
Proof.
  intros Hnames. revert acc.
  induction Hnames as [|k names Hk Hnames IH]; intros acc; simpl.
  - intros [= <-] _ _ [Hin|?]; [by apply elem_of_nil in Hin|done].
  - destruct (load_plugin H s plugins hasDefault k acc) as [acc1|r] eqn:Hstep;
      [|done].
    intros Hrest Hn Hnd Hor. apply (IH _ Hrest Hn Hnd).
    apply load_plugin_continues in Hstep
      as [[-> Hskip]|[(Hkd & -> & _)|(Hne & m & config & f & _ & ->)]].
    + destruct Hor as [Hin|?]; [|by right].
      apply elem_of_cons in Hin as [->|Hin]; [|by left].
      destruct Hskip as [Hnone|?]; [|done].
      rewrite Hnone in Hk. by destruct Hk.
    + subst k. destruct Hor as [Hin|?]; [|by right].
      apply elem_of_cons in Hin as [->|Hin]; [done|by left].
    + cbn [l_state]. unfold registered.
      destruct Hor as [Hin|Hslot].
      * apply elem_of_cons in Hin as [->|Hin]; [|by left].
        right. apply (plugin_slot_assign _ k k _ f (copySettings config s));
          [done|by left].
      * right. apply (plugin_slot_assign _ k n _ f (copySettings config s));
          [done|by right].
Qed.

(** The loop never binds ["_"], nor a name whose entry is a string. *)
Lemma load_plugin_keeps_slot (H : Host) (s : Settings)
    (plugins : list (string * plugin_entry)) (hasDefault : bool)
    (k n : string) (acc : loading) :
  n = "_" ∨ (∃ a, JsObject.own plugins n = Some (EString a)) →
  match load_plugin H s plugins hasDefault k acc with
  | inl acc' => slot (l_state acc') n = slot (l_state acc) n
  | inr (_, st') => slot st' n = slot (l_state acc) n
  end.
Proof.
  intros Hn.
  destruct (load_plugin H s plugins hasDefault k acc) as [acc'|[e st']] eqn:Hstep.
  - apply load_plugin_continues in Hstep
      as [[-> _]|[(_ & -> & _)|(Hk & m & config & f & Hown & ->)]]; try done.
    cbn [l_state]. unfold registered.
    rewrite slot_stores_assign_ne; [done|].
    intros ->. destruct Hn as [->|[a Ha]]; congruence.
  - revert Hstep. unfold load_plugin.
    repeat case_match; intros; by simplify_eq.
Qed.

Lemma load_plugins_keeps_slot (H : Host) (s : Settings)
    (plugins : list (string * plugin_entry)) (hasDefault : bool)
    (names : list string) (n : string) (acc : loading) :
  n = "_" ∨ (∃ a, JsObject.own plugins n = Some (EString a)) →
  match load_plugins H s plugins hasDefault names acc with
  | inl acc' => slot (l_state acc') n = slot (l_state acc) n
  | inr (_, st') => slot st' n = slot (l_state acc) n
  end.
Proof.
  intros Hn. revert acc. induction names as [|k names IH]; intros acc; simpl;
    [done|].
  pose proof (load_plugin_keeps_slot H s plugins hasDefault k n acc Hn) as Hstep.
  destruct (load_plugin H s plugins hasDefault k acc) as [acc1|[e st1]]; [|done].
  specialize (IH acc1).
  destruct (load_plugins H s plugins hasDefault names acc1) as [acc2|[e st2]];
    congruence.
Qed.



Example load_default_alias_run :
  stores (load empty_host (init aliased_settings booted)).2
  = [("_", Store (Inst 3 (Plugin 3 (PluginConfig None [("userDir", VUndefined)]))));
     ("a", Store (Inst 3 (Plugin 3 (PluginConfig None [("userDir", VUndefined)]))));
     ("default", Store (Inst 3 (Plugin 3 (PluginConfig None [("userDir", VUndefined)]))))].
Proof. vm_compute. reflexivity. Qed.

(** The alias may name itself: nothing is bound, and the facade has no
    backend to call. *)
Example load_default_names_itself :
  let st := (load empty_host
               (init {| functionGlobalContext := Some 0;
                        contextStorage := Some [("default", EString "default")];
                        userDir := None |} booted)).2 in
  slot st "default" = NoStore ∧ slot st "_" = NoStore
  ∧ hasConfiguredStore st = true
  ∧ ctx_get empty_host global_env "k" VUndefined VUndefined st = Throw typeError.
Proof. vm_compute. done. Qed.

Lemma first_named_cons (k : string) (names : list string) :
  first_named (k :: names)
  = if decide (k ≠ "_" ∧ k ≠ "") then Some k else first_named names.
Proof.
  unfold first_named. rewrite filter_cons. by case_decide.
Qed.

Lemma named_Some (k : string) : k ≠ "" → named (Some k) = true.
Proof. intros Hk. simpl. by destruct (String.eqb_spec k ""). Qed.

Lemma load_plugins_keeps_name (H : Host) (s : Settings)
    (plugins : list (string * plugin_entry)) (names : list string)
    (acc acc' : loading) :
  load_plugins H s plugins false names acc = inl acc' →
  named (defaultName acc) = true → defaultName acc' = defaultName acc.
Proof.
  revert acc. induction names as [|k names IH]; intros acc; simpl.
  - by intros [= <-].
  - destruct (load_plugin H s plugins false k acc) as [acc1|r] eqn:Hstep; [|done].
    intros Hrest Hnamed.
    apply load_plugin_continues in Hstep
      as [[-> _]|[(_ & -> & _)|(_ & m & config & f & _ & ->)]].
    + by apply IH.
    + by apply (IH _ Hrest).
    + rewrite (IH _ Hrest); simpl; by rewrite Hnamed.
Qed.

Lemma load_plugins_first_named (H : Host) (s : Settings)
    (plugins : list (string * plugin_entry)) (names : list string)
    (acc acc' : loading) (n : string) :
  JsObject.hasOwnProperty plugins "default" = false →
  Forall (λ k, is_Some (JsObject.own plugins k)) names →
  load_plugins H s plugins false names acc = inl acc' →
  named (defaultName acc) = false →
  first_named names = Some n →
  defaultName acc' = Some n.
Proof.
  intros Hnodefault Hnames. revert acc.
  induction Hnames as [|k names Hk Hnames IH]; intros acc; simpl.
  - done.
  - destruct (load_plugin H s plugins false k acc) as [acc1|r] eqn:Hstep; [|done].
    intros Hrest Hnamed. rewrite first_named_cons.
    apply load_plugin_continues in Hstep
      as [[-> Hskip]|[(Hkd & _ & a & Hown & _)|(Hne & m & config & f & _ & ->)]].
    + destruct Hskip as [Hnone| ->].
      * rewrite Hnone in Hk. by destruct Hk.
      * rewrite decide_False by (by intros [? _]). apply (IH _ Hrest Hnamed).
    + subst k. unfold JsObject.hasOwnProperty in Hnodefault.
      by rewrite Hown in Hnodefault.
    + simpl in Hrest. rewrite Hnamed in Hrest. simpl in Hrest.
      case_decide as Hkk.
      * intros [= <-].
        rewrite (load_plugins_keeps_name _ _ _ _ _ _ Hrest); [done|].
        apply named_Some. by destruct Hkk.
      * apply (IH _ Hrest). simpl.
        destruct (decide (k = "")) as [->|Hempty]; [done|].
        exfalso. by apply Hkk.
Qed.

Lemma first_named_elem (names : list string) (n : string) :
  first_named names = Some n → n ∈ names ∧ n ≠ "_" ∧ n ≠ "".
Proof.
  unfold first_named. intros Hhead.
  assert (Hin : n ∈ filter (λ k, k ≠ "_" ∧ k ≠ "") names).
  { destruct (filter _ names) as [|k l]; [done|].
    injection Hhead as ->. apply list_elem_of_here. }
  apply list_elem_of_filter in Hin as [[? ?] ?]. done.
Qed.



Example load_first_configured_run :
  stores (load empty_host (init two_stores_settings booted)).2
  = [("_", Store (Inst 3 (Plugin 3 (PluginConfig None [("userDir", VStr "/data")]))));
     ("b", Store (Inst 3 (Plugin 3 (PluginConfig None [("userDir", VStr "/data")]))));
     ("a", Store (Inst 4 (Plugin 4 (PluginConfig (Some 1) [("userDir", VStr "/data")]))));
     ("default", Store (Inst 3 (Plugin 3 (PluginConfig None [("userDir", VStr "/data")]))))].
Proof. vm_compute. reflexivity. Qed.

(** An entry called ["_"] is passed over, so the loop runs as if the
    enumeration did not list it. *)
Lemma load_plugins_reserved (H : Host) (s : Settings)
    (plugins : list (string * plugin_entry)) (hasDefault : bool)
    (names : list string) (acc : loading) :
  load_plugins H s plugins hasDefault names acc
  = load_plugins H s plugins hasDefault (filter (λ k, k ≠ "_") names) acc.
Proof.
  revert acc. induction names as [|k names IH]; intros acc; [done|].
  rewrite filter_cons. case_decide as Hk; simpl.
  - destruct (load_plugin H s plugins hasDefault k acc); [apply IH|done].
  - assert (k = "_") as -> by (by destruct (decide (k = "_"))).
    assert (Hskip : load_plugin H s plugins hasDefault "_" acc = inl acc).
    { unfold load_plugin. by destruct (JsObject.own plugins "_"). }
    rewrite Hskip. apply IH.
Qed.

(** A configuration object with no entry, or with none but ["_"]: [load]
    makes nothing, opens the backend [init] left under ["_"], and sets
    [hasConfiguredStore] all the same; no ["default"] gets registered, so a
    named store is still unknown afterwards. *)
Theorem load_empty_configuration (H : Host) (s : Settings) (st : state)
    (plugins : list (string * plugin_entry)) (m : inst) :
  settings st = Some s → contextStorage s = Some plugins →
  Forall (λ k, k = "_") (JsObject.keys plugins) →
  stores st = [("_", Store m)] →
  load H st
  = (PAll [COpen m],
     set_hasConfiguredStore (log_event st (EvCall (COpen m))) true)
  ∧ (∀ name, name ≠ "_" →
       ∃ e, getContextStorage H (VStr name) (load H st).2 = Throw e
            ∧ e_name e = "ContextError").
Proof.
  intros Hs Hc Hkeys Hstores.
  assert (Hnot : ∀ k, k ≠ "_" → JsObject.hasOwnProperty plugins k = false).
  { intros k Hk. destruct (JsObject.hasOwnProperty plugins k) eqn:Hd; [|done].
    apply JsObjectFacts.hasOwnProperty_keys in Hd.
    rewrite Forall_forall in Hkeys. by specialize (Hkeys _ Hd). }
  assert (Hload : load H st
    = (PAll [COpen m],
       set_hasConfiguredStore (log_event st (EvCall (COpen m))) true)).
  { unfold load, load_configured. rewrite Hs, Hc.
    rewrite (Hnot "hasOwnProperty") by done.
    rewrite load_plugins_reserved.
    assert (Hnone : filter (λ k, k ≠ "_") (JsObject.keys plugins) = []).
    { induction Hkeys as [|k ks -> _ IH]; [done|].
      rewrite filter_cons. by rewrite decide_False by (by intros ?). }
    rewrite Hnone. cbn [load_plugins l_state]. rewrite Hstores.
    cbn [call_all].
    rewrite (Hnot "default") by done. reflexivity. }
  split; [exact Hload|].
  intros name Hname. rewrite Hload. unfold getContextStorage; simpl.
  rewrite Hstores. unfold JsObject.hasOwnProperty; simpl.
  rewrite decide_False by done. eauto.
Qed.

Lemma load_empty_configuration_witness :
  load empty_host (init empty_config_settings booted)
  = (PAll [COpen (Inst 2 Memory)],
     set_hasConfiguredStore
       (log_event (init empty_config_settings booted)
          (EvCall (COpen (Inst 2 Memory)))) true)
  ∧ ∃ e, getContextStorage empty_host (VStr "default")
           (load empty_host (init empty_config_settings booted)).2 = Throw e
         ∧ e_name e = "ContextError".
Proof.
  destruct (load_empty_configuration empty_host empty_config_settings
              (init empty_config_settings booted) [] (Inst 2 Memory)
              eq_refl eq_refl (Forall_nil_2 _) eq_refl) as [Hload Hnames].
  split; [exact Hload|]. apply Hnames. discriminate.
Defined.

(** ** What load records *)

Lemma call_all_throws (mk : inst → backend_call) (ss : list (string * sval))
    (st : state) (e : error) :
  (call_all mk ss st).1 = Throw e → e = typeError.
Proof.
  revert st. induction ss as [|[k [i|]] ss IH]; intros st; simpl.
  - done.
  - specialize (IH (log_event st (EvCall (mk i)))).
    destruct (call_all mk ss (log_event st (EvCall (mk i)))) as [[cs|e'] st'];
      simpl in *; [done|]. intros [= <-]. by apply IH.
  - by intros [= <-].
Qed.

Lemma call_all_returns (mk : inst → backend_call) (ss : list (string * sval))
    (st : state) (cs : list backend_call) :
  (call_all mk ss st).1 = Return cs →
  cs = mk <$> instances ss
  ∧ trace (call_all mk ss st).2 = (trace st ++ (EvCall <$> cs))%list.
Proof.
  revert st cs. induction ss as [|[k [i|]] ss IH]; intros st cs; simpl.
  - intros [= <-]. by rewrite app_nil_r.
  - specialize (IH (log_event st (EvCall (mk i)))).
    destruct (call_all mk ss (log_event st (EvCall (mk i)))) as [[cs'|e] st'];
      simpl in *; [|done].
    intros [= <-]. destruct (IH cs' eq_refl) as [-> Ht].
    split; [done|]. by rewrite Ht, <- app_assoc.
  - done.
Qed.

Lemma own_instances (ss : list (string * sval)) (k : string) (i : inst) :
  JsObject.own ss k = Some (Store i) → i ∈ instances ss.
Proof.
  induction ss as [|[k' v] ss IH]; simpl; [done|].
  destruct (decide (k = k')) as [->|Hne].
  - intros [= ->]. unfold instances. simpl. apply list_elem_of_here.
  - intros Hown. unfold instances. simpl.
    destruct v; [apply list_elem_of_further|]; by apply IH.
Qed.

Lemma load_plugin_trace (H : Host) (s : Settings)
    (plugins : list (string * plugin_entry)) (hasDefault : bool)
    (k : string) (acc : loading) :
  ∃ evs, Forall (from_factory s) evs
         ∧ match load_plugin H s plugins hasDefault k acc with
           | inl acc' => trace (l_state acc') = (trace (l_state acc) ++ evs)%list
           | inr (_, st') => trace st' = (trace (l_state acc) ++ evs)%list
           end.
Proof.
  unfold load_plugin, stores_assign.
  repeat case_match; simplify_eq; simpl;
    try (exists []; split; [constructor|by rewrite app_nil_r]);
    eexists [_]; (split; [|reflexivity]); by repeat constructor.
Qed.

Lemma load_plugin_flag (H : Host) (s : Settings)
    (plugins : list (string * plugin_entry)) (hasDefault : bool)
    (k : string) (acc : loading) :
  match load_plugin H s plugins hasDefault k acc with
  | inl acc' => hasConfiguredStore (l_state acc') = hasConfiguredStore (l_state acc)
  | inr (_, st') => hasConfiguredStore st' = hasConfiguredStore (l_state acc)
  end.
Proof.
  unfold load_plugin, stores_assign. repeat case_match; simplify_eq; done.
Qed.

Lemma load_plugins_flag (H : Host) (s : Settings)
    (plugins : list (string * plugin_entry)) (hasDefault : bool)
    (names : list string) (acc : loading) :
  match load_plugins H s plugins hasDefault names acc with
  | inl acc' => hasConfiguredStore (l_state acc') = hasConfiguredStore (l_state acc)
  | inr (_, st') => hasConfiguredStore st' = hasConfiguredStore (l_state acc)
  end.
Proof.
  revert acc. induction names as [|k names IH]; intros acc; simpl; [done|].
  pose proof (load_plugin_flag H s plugins hasDefault k acc) as Hstep.
  destruct (load_plugin H s plugins hasDefault k acc) as [acc1|[e st1]]; [|done].
  specialize (IH acc1).
  destruct (load_plugins H s plugins hasDefault names acc1) as [acc2|[e st2]];
    congruence.
Qed.

Lemma load_plugins_trace (H : Host) (s : Settings)
    (plugins : list (string * plugin_entry)) (hasDefault : bool)
    (names : list string) (acc : loading) :
  ∃ evs, Forall (from_factory s) evs
         ∧ match load_plugins H s plugins hasDefault names acc with
           | inl acc' => trace (l_state acc') = (trace (l_state acc) ++ evs)%list
           | inr (_, st') => trace st' = (trace (l_state acc) ++ evs)%list
           end.
Proof.
  revert acc. induction names as [|k names IH]; intros acc; simpl.
  - exists []. split; [constructor|by rewrite app_nil_r].
  - destruct (load_plugin_trace H s plugins hasDefault k acc) as (evs & Hevs & Hstep).
    destruct (load_plugin H s plugins hasDefault k acc) as [acc1|[e st1]].
    + destruct (IH acc1) as (evs' & Hevs' & Hrest).
      exists (evs ++ evs')%list. split; [by apply Forall_app|].
      destruct (load_plugins H s plugins hasDefault names acc1) as [acc2|[e st2]];
        by rewrite Hrest, Hstep, app_assoc.
    + by exists evs.
Qed.

Lemma resolve_default_trace (plugins : list (string * plugin_entry))
    (hasDefault : bool) (acc : loading) :
  trace (resolve_default plugins hasDefault acc) = trace (l_state acc).
Proof. unfold resolve_default. repeat case_match; done. Qed.

Lemma resolve_default_slot (plugins : list (string * plugin_entry))
    (hasDefault : bool) (acc : loading) (n : string) :
  n ≠ "_" → n ≠ "default" →
  slot (resolve_default plugins hasDefault acc) n = slot (l_state acc) n.
Proof.
  intros Hn Hd. unfold resolve_default.
  repeat case_match; try done; by rewrite !slot_assign_ne.
Qed.

(** Every backend entry the loop got past, whatever its name unless it is
    ["_"] or ["__proto__"], is a property of [stores] holding the instance
    its factory made; and the loop leaves the property ["_"] alone. *)
Lemma load_plugins_owns (H : Host) (s : Settings)
    (plugins : list (string * plugin_entry)) (hasDefault : bool)
    (names : list string) (acc acc' : loading) (n : string)
    (m : option module_ref) (c : option nat) :
  JsObject.own plugins n = Some (EObject m c) →
  n ≠ "_" → n ≠ "__proto__" →
  load_plugins H s plugins hasDefault names acc = inl acc' →
  n ∈ names ∨ own_plugin (l_state acc) n →
  own_plugin (l_state acc') n.
Proof.
  intros Hentry Hn Hp. revert acc.
  induction names as [|k names IH]; intros acc; simpl.
  - intros [= <-] [Hin|?]; [by apply elem_of_nil in Hin|done].
  - destruct (load_plugin H s plugins hasDefault k acc) as [acc1|r] eqn:Hstep;
      [|done].
    intros Hrest Hor. apply (IH _ Hrest).
    apply load_plugin_continues in Hstep
      as [[-> Hskip]|[(Hkd & -> & a & Hown & _)|(Hne & m' & config & f & _ & ->)]].
    + destruct Hor as [Hin|?]; [|by right].
      apply elem_of_cons in Hin as [->|Hin]; [|by left].
      destruct Hskip as [Hnone|?]; congruence.
    + subst k. destruct Hor as [Hin|?]; [|by right].
      apply elem_of_cons in Hin as [->|Hin]; [congruence|by left].
    + cbn [l_state]. unfold registered, own_plugin.
      destruct (decide (n = k)) as [->|Hnk].
      * right. eexists _, f, (copySettings config s).
        by rewrite stores_assign_own_eq.
      * destruct Hor as [Hin|Hslot].
        -- apply elem_of_cons in Hin as [->|Hin]; [done|by left].
        -- right. by rewrite stores_assign_own_ne.
Qed.

Lemma load_plugins_own_reserved (H : Host) (s : Settings)
    (plugins : list (string * plugin_entry)) (hasDefault : bool)
    (names : list string) (acc acc' : loading) :
  load_plugins H s plugins hasDefault names acc = inl acc' →
  JsObject.own (stores (l_state acc')) "_"
  = JsObject.own (stores (l_state acc)) "_".
Proof.
  revert acc. induction names as [|k names IH]; intros acc; simpl.
  - by intros [= <-].
  - destruct (load_plugin H s plugins hasDefault k acc) as [acc1|r] eqn:Hstep;
      [|done].
    intros Hrest. rewrite (IH _ Hrest).
    apply load_plugin_continues in Hstep
      as [[-> _]|[(_ & -> & _)|(Hne & m & config & f & _ & ->)]]; try done.
    cbn [l_state]. unfold registered. by rewrite stores_assign_own_ne.
Qed.



(** The placeholder of [init] is opened and then left behind: after the
    [load] no name is bound to it. *)
Example placeholder_opened_then_unbound :
  (load empty_host (init two_stores_settings booted)).1
  = PAll [COpen (Inst 2 Memory);
          COpen (Inst 3 (Plugin 3 (PluginConfig None [("userDir", VStr "/data")])));
          COpen (Inst 4 (Plugin 4 (PluginConfig (Some 1) [("userDir", VStr "/data")])))]
  ∧ Inst 2 Memory
    ∉ instances (stores (load empty_host (init two_stores_settings booted)).2).
Proof.
  split; [vm_compute; reflexivity|].
  vm_compute. intros Hin.
  repeat (apply elem_of_cons in Hin as [Hin|Hin]; [discriminate Hin|]).
  by apply elem_of_nil in Hin.
Qed.

(** An entry called [__proto__] becomes the prototype of [stores]: no
    property, so it is not opened, and yet it is the default. *)
Example prototype_entry_not_opened :
  let st := init {| functionGlobalContext := Some 0;
                    contextStorage :=
                      Some [("__proto__", EObject (Some (ModFactory 3)) None)];
                    userDir := None |} booted in
  (load empty_host st).1 = PAll [COpen (Inst 2 Memory)]
  ∧ slot (load empty_host st).2 "default"
    = Store (Inst 3 (Plugin 3 (PluginConfig None [("userDir", VUndefined)])))
  ∧ JsObject.keys (stores (load empty_host st).2) = ["_"; "default"].
Proof. vm_compute. done. Qed.

(** Array-index names are enumerated first: the backend called ["7"] is
    opened before the placeholder under ["_"]. *)
Example index_entry_opened_first :
  (load empty_host
     (init {| functionGlobalContext := Some 0;
              contextStorage := Some [("7", EObject (Some (ModFactory 3)) None)];
              userDir := None |} booted)).1
  = PAll [COpen (Inst 3 (Plugin 3 (PluginConfig None [("userDir", VUndefined)])));
          COpen (Inst 2 Memory)].
Proof. vm_compute. reflexivity. Qed.

(** ** The name hasOwnProperty in stores *)

Lemma load_plugins_not_shadowing (H : Host) (s : Settings)
    (plugins : list (string * plugin_entry)) (hasDefault : bool)
    (names : list string) (acc : loading) :
  JsObject.hasOwnProperty plugins "hasOwnProperty" = false →
  JsObject.own (stores (l_state acc)) "hasOwnProperty" = None →
  match load_plugins H s plugins hasDefault names acc with
  | inl acc' => JsObject.own (stores (l_state acc')) "hasOwnProperty" = None
  | inr (_, st') => JsObject.own (stores st') "hasOwnProperty" = None
  end.
Proof.
  intros Hplugins. revert acc.
  induction names as [|k names IH]; intros acc Hacc; simpl; [done|].
  destruct (load_plugin H s plugins hasDefault k acc) as [acc1|[e st1]] eqn:Hstep.
  - apply IH.
    apply load_plugin_continues in Hstep
      as [[-> _]|[(_ & -> & _)|(Hne & m & config & f & Hown & ->)]]; try done.
    cbn [l_state]. unfold registered. rewrite stores_assign_own_ne; [done|].
    intros ->. unfold JsObject.hasOwnProperty in Hplugins.
    by rewrite Hown in Hplugins.
  - revert Hstep. unfold load_plugin.
    repeat case_match; intros; by simplify_eq.
Qed.

(** [stores] never gets a property called [hasOwnProperty]: [init] starts
    it over with ["_"] alone, and [load] rejects a configuration with an
    entry of that name before it binds anything.  So the calls of
    [stores.hasOwnProperty] reach the builtin. *)
Lemma stores_never_shadowed (H : Host) (s : Settings) (st : state) :
  JsObject.own (stores (init s st)) "hasOwnProperty" = None
  ∧ (JsObject.own (stores st) "hasOwnProperty" = None →
     JsObject.own (stores (load H st).2) "hasOwnProperty" = None).
Proof.
  split; [by rewrite init_eq|].
  intros Hst. unfold load. destruct (settings st) as [s'|]; [|done].
  unfold load_configured. destruct (contextStorage s') as [plugins|].
  - destruct (JsObject.hasOwnProperty plugins "hasOwnProperty") eqn:Hplugins;
      [done|].
    pose proof (load_plugins_not_shadowing H s' plugins
                  (JsObject.hasOwnProperty plugins "default")
                  (JsObject.keys plugins) (Loading st false None)
                  Hplugins Hst) as Hloop.
    destruct (load_plugins H s' plugins _ _ _) as [acc|[e st1]]; [|done].
    pose proof (call_all_stores COpen (stores (l_state acc)) (l_state acc))
      as (Hstores & _).
    destruct (call_all COpen _ _) as [[promises|e] st2]; simpl in Hstores;
      [|simpl; by rewrite Hstores].
    assert (Hres : JsObject.own
                     (stores (resolve_default plugins
                                (JsObject.hasOwnProperty plugins "default")
                                (Loading st2 (defaultIsAlias acc)
                                   (defaultName acc))))
                     "hasOwnProperty" = None).
    { unfold resolve_default. cbn [l_state defaultIsAlias defaultName].
      repeat case_match; simpl;
        rewrite ?JsObjectFacts.own_assign_ne by done; by rewrite Hstores. }
    destruct promises; [|exact Hres].
    simpl. repeat case_match; simpl;
      by rewrite ?JsObjectFacts.own_assign_ne by done.
  - simpl. repeat case_match; simpl;
      by rewrite ?JsObjectFacts.own_assign_ne by done.
Qed.

(** ** close *)



(** ** init a second time on the same initial-values map *)

(** [createContext] writes the three methods on the seed object as ordinary
    properties, so when [init] runs again on settings with the same
    initial-values object, the seed keys it records include ["get"],
    ["set"] and ["keys"], and [keys()] on the new global Context lists
    them whatever the backend reports. *)
Theorem reinit_seed_keys (s s' : Settings) (st : state) (l : loc) :
  functionGlobalContext s = Some l →
  functionGlobalContext s' = Some l →
  ∃ genv,
    contexts (init s' (init s st)) !! "global" = Some l
    ∧ method_env (init s' (init s st)) l "keys" MKeys = Some genv
    ∧ (∀ m, method_name m ∈ cl_seedKeys genv)
    ∧ (∀ reported, ∃ ks, merge_keys genv reported = KArray ks
                         ∧ ∀ m, VStr (method_name m) ∈ ks).
Proof.
  intros Hl Hl'.
  destruct (init_global s st) as (_ & _ & _ & Hfirst).
  destruct (init_global s' (init s st)) as (Hg & Hm & _).
  simpl in Hfirst, Hg, Hm.
  assert (Hseed : seed_of s st = l) by (unfold seed_of; by rewrite Hl).
  assert (Hseed' : seed_of s' (init s st) = l) by (unfold seed_of; by rewrite Hl').
  assert (Hmap : configured_map s' (init s st) = heap_obj (init s st) l)
    by (unfold configured_map; by rewrite Hl').
  rewrite Hseed in Hfirst. rewrite Hseed' in Hg, Hm. rewrite Hmap in Hm.
  eexists. split_and!; [exact Hg | exact (Hm MKeys) | |].
  - intros m. simpl. eapply JsObjectFacts.own_Some_keys, Hfirst.
  - intros reported.
    destruct (merge_keys_union
                (Closure (next (with_seed s' (init s st))) "global" (Some l)
                   (JsObject.keys (heap_obj (init s st) l))) reported)
      as (ks & Hks & _ & _ & Hin).
    exists ks. split; [exact Hks|]. intros m. apply Hin. simpl.
    eapply JsObjectFacts.own_Some_keys, Hfirst.
Qed.

Lemma reinit_seed_keys_witness :
  ∃ genv,
    contexts (init plain_settings (init plain_settings booted)) !! "global" = Some 0
    ∧ method_env (init plain_settings (init plain_settings booted)) 0 "keys" MKeys
      = Some genv
    ∧ (∀ m, method_name m ∈ cl_seedKeys genv)
    ∧ (∀ reported, ∃ ks, merge_keys genv reported = KArray ks
                         ∧ ∀ m, VStr (method_name m) ∈ ks).
Proof.
  apply (reinit_seed_keys plain_settings plain_settings booted 0); reflexivity.
Defined.

Example reinit_seed_keys_run :
  d_ret <$> (match global_keys empty_host VUndefined VUndefined
                     (init plain_settings (init plain_settings booted)) with
             | Return d => Some d
             | Throw _ => None
             end)
  = Some (KArray [VStr "keys"; VStr "get"; VStr "set"]).
Proof. vm_compute. reflexivity. Qed.

(** ** clean, again *)

(** [clean] only ever drops entries of the cache: what is cached
    afterwards was cached before, under the same id.  Cleaning a second
    time with the same flow configuration drops nothing more, and
    [stores] is not touched. *)
Theorem clean_idempotent (fc : FlowConfig) (st : state) :
  Forall (λ p, p.2 ≠ NoStore) (stores st) →
  contexts (clean fc (clean fc st).2).2 = contexts (clean fc st).2
  ∧ (∀ id c, contexts (clean fc st).2 !! id = Some c →
             contexts st !! id = Some c)
  ∧ stores (clean fc st).2 = stores st.
Proof.
  intros Hss.
  assert (Hcases : contexts (clean fc st).2 = contexts st
                   ∨ (contexts st !! "hasOwnProperty" = None
                      ∧ JsObject.hasOwnProperty (allNodes fc) "hasOwnProperty"
                        = false)).
  { destruct (contexts st !! "hasOwnProperty") as [c|] eqn:Hp.
    { left. apply clean_contexts_static. left. by rewrite Hp. }
    destruct (JsObject.hasOwnProperty (allNodes fc) "hasOwnProperty") eqn:Hn.
    { left. apply clean_contexts_static. by right. }
    by right. }
  split_and!; [| |apply clean_stores].
  - destruct Hcases as [Hsame|[Hp Hn]].
    + destruct (contexts st !! "hasOwnProperty") as [c|] eqn:Hp.
      { rewrite clean_contexts_static; [done|]. left. by rewrite Hsame, Hp. }
      destruct (JsObject.hasOwnProperty (allNodes fc) "hasOwnProperty") eqn:Hn.
      { rewrite clean_contexts_static; [done|]. by right. }
      apply map_eq. intros id.
      rewrite clean_contexts; [|by rewrite clean_stores|by rewrite Hsame|done].
      rewrite Hsame. rewrite <- Hsame at 2. rewrite clean_contexts by done.
      by destruct (doomed fc id).
    + apply map_eq. intros id.
      rewrite clean_contexts; [|by rewrite clean_stores| |done].
      * rewrite clean_contexts by done. by destruct (doomed fc id).
      * rewrite clean_contexts by done. rewrite Hp. by destruct (doomed fc _).
  - intros id c. destruct Hcases as [Hsame|[Hp Hn]].
    + by rewrite Hsame.
    + rewrite clean_contexts by done. by destruct (doomed fc id).
Qed.

Lemma clean_idempotent_witness :
  contexts (clean other_flow (clean other_flow busy_run).2).2
  = contexts (clean other_flow busy_run).2.
Proof.
  apply (clean_idempotent other_flow busy_run).
  vm_compute. repeat constructor; discriminate.
Defined.

(** ** The facade between init and load *)

Lemma init_stores (s : Settings) (st : state) :
  stores (init s st) = [("_", Store (Inst (S (next (with_seed s st))) Memory))].
Proof. by rewrite init_eq. Qed.

Lemma getContextStorage_after_init (H : Host) (s : Settings) (st : state)
    (storage : jsval) :
  property_key H storage ≠ "_" →
  getContextStorage H storage (init s st) = Throw (unknownStorage storage).
Proof.
  intros Hname. unfold getContextStorage. rewrite init_stores.
  unfold JsObject.hasOwnProperty; simpl. by rewrite decide_False.
Qed.



(** ** A rejected load *)

(** When [load] rejects with a configuration error it has not opened
    anything: what it recorded are factory calls only, the flag is as it
    was, and the backends made from earlier entries are not unregistered. *)
Theorem load_rejects_before_open (H : Host) (s : Settings) (st : state)
    (e : error) :
  settings st = Some s →
  (load H st).1 = PRejected e → e ≠ typeError →
  ∃ evs, trace (load H st).2 = (trace st ++ evs)%list
         ∧ Forall (from_factory s) evs
         ∧ (∀ c, EvCall c ∉ evs)
         ∧ hasConfiguredStore (load H st).2 = hasConfiguredStore st.
Proof.
  intros Hs. unfold load. rewrite Hs. unfold load_configured.
  destruct (contextStorage s) as [plugins|].
  - destruct (JsObject.hasOwnProperty plugins "hasOwnProperty").
    { simpl. intros [= <-] Hne. done. }
    destruct (load_plugins_trace H s plugins
                (JsObject.hasOwnProperty plugins "default")
                (JsObject.keys plugins) (Loading st false None))
      as (evs & Hevs & Hloop).
    pose proof (load_plugins_flag H s plugins
                  (JsObject.hasOwnProperty plugins "default")
                  (JsObject.keys plugins) (Loading st false None)) as Hflag.
    destruct (load_plugins H s plugins _ _ _) as [acc|[e1 st1]];
      simpl in Hloop, Hflag.
    + pose proof (call_all_throws COpen (stores (l_state acc)) (l_state acc))
        as Hthrow.
      destruct (call_all COpen _ _) as [[promises|e2] st2]; simpl in Hthrow.
      * destruct promises; simpl; [|done].
        repeat case_match; simpl; try done.
        intros [= <-] Hne. done.
      * simpl. intros [= <-] Hne. by specialize (Hthrow _ eq_refl).
    + simpl. intros [= <-] _. exists evs. split_and!; [done|done| |done].
      intros c Hin. rewrite Forall_forall in Hevs. by apply Hevs in Hin.
  - simpl. repeat case_match; simpl; try done.
    intros [= <-] Hne. done.
Qed.

Lemma load_rejects_before_open_witness :
  ∃ evs, trace (load empty_host (init dangling_settings booted)).2
         = (trace (init dangling_settings booted) ++ evs)%list
         ∧ Forall (from_factory dangling_settings) evs
         ∧ (∀ c, EvCall c ∉ evs)
         ∧ hasConfiguredStore (load empty_host (init dangling_settings booted)).2
           = hasConfiguredStore (init dangling_settings booted).
Proof.
  apply (load_rejects_before_open empty_host dangling_settings
           (init dangling_settings booted)
           (logError "context.error-invalid-default-module"
              [("storage", VStr "missing")])).
  - reflexivity.
  - vm_compute; reflexivity.
  - discriminate.
Defined.

(** ** Deleting the global scope *)

(** X14.  [delete] has no exception for ["global"], unlike [clean]: with
    no backend configured, [delete("global")] drops the seeded Context
    from the cache.  Unless the cache has a prototype to inherit one
    from, a Context made afterwards gets [undefined] as its [global]
    link, and resolving ["global"] makes a new Context without a seed and
    caches it under that name. *)
Theorem delete_global_unprotected (st : state) (i : inst) :
  hasConfiguredStore st = false → slot st "_" = Store i →
  contexts st !! "hasOwnProperty" = None → contexts_proto st = None →
  let st' := (deleteContext "global" None st).2 in
  let env := Closure (S (next st')) "global" None [] in
  contexts st' !! "global" = None
  ∧ global_ref st' = VUndefined
  ∧ (getContext "global" None st').1 = Return (next st')
  ∧ contexts (getContext "global" None st').2 !! "global" = Some (next st')
  ∧ heap_obj (getContext "global" None st').2 (next st')
    = [("get", VMethod MGet env); ("set", VMethod MSet env);
       ("keys", VMethod MKeys env); ("global", VUndefined)].
Proof.
  intros Hflag Hslot Hp Hproto. cbv zeta.
  assert (Hst' : (deleteContext "global" None st).2
                 = log_event (set_contexts st (delete "global" (contexts st)))
                             (EvCall (CDelete i "global"))).
  { unfold deleteContext. rewrite Hflag. simpl.
    replace (slot (set_contexts st (delete "global" (contexts st))) "_")
      with (slot st "_") by reflexivity.
    by rewrite Hslot. }
  rewrite Hst'.
  set (st' := log_event (set_contexts st (delete "global" (contexts st)))
                        (EvCall (CDelete i "global"))).
  assert (Hmiss : contexts st' !! "global" = None) by apply lookup_delete_eq.
  assert (Hp' : contexts st' !! "hasOwnProperty" = None).
  { unfold st'. simpl. by rewrite lookup_delete_ne. }
  assert (Href : global_ref st' = VUndefined) by (by apply global_ref_none).
  rewrite getContext_no_flow.
  destruct (getContextOf_miss "global" st' Hp' Hmiss) as (Hret & _ & Hcs & _).
  rewrite decide_False in Hcs by done.
  split_and!; [done|done|done| |].
  - rewrite Hcs. apply lookup_insert_eq.
  - rewrite (getContextOf_plain "global" st' Hp'), Hmiss. cbv zeta. cbn [snd].
    destruct (createContext_plain "global" st')
      as (_ & Hobj & _ & Hctx & Hpr & _).
    rewrite contexts_assign_heap, heap_obj_set_prop, Hobj.
    rewrite global_ref_none; [reflexivity|by rewrite Hctx|by rewrite Hpr].
Qed.

Lemma delete_global_unprotected_witness :
  contexts (deleteContext "global" None plain_run).2 !! "global" = None
  ∧ global_ref (deleteContext "global" None plain_run).2 = VUndefined
  ∧ (getContext "global" None (deleteContext "global" None plain_run).2).1
    = Return (next (deleteContext "global" None plain_run).2).
Proof.
  destruct (delete_global_unprotected plain_run (Inst 3 Memory))
    as (Hgone & Href & Hret & _); [vm_compute; reflexivity..|].
  split_and!; [exact Hgone | exact Href | exact Hret].
Defined.

(** With a prototype on the cache, set by [get("__proto__")], the
    [global] link is inherited from it. *)
Example global_inherited_from_prototype :
  let st := (deleteContext "global" None
               (getContext "__proto__" None plain_run).2).2 in
  contexts st !! "global" = None ∧ global_ref st = VObj 0.
Proof. vm_compute. done. Qed.

(** ** Names after a load without configuration *)



(** ** The reserved name *)

(** Whatever the configuration lists, the loop of [load] over it never
    binds ["_"]: until the default is resolved after the [open] calls,
    also when an entry makes [load] reject half way, ["_"] names what it
    named before. *)
Theorem reserved_slot_kept (H : Host) (s : Settings)
    (plugins : list (string * plugin_entry)) (hasDefault : bool)
    (names : list string) (acc : loading) :
  match load_plugins H s plugins hasDefault names acc with
  | inl acc' => slot (l_state acc') "_" = slot (l_state acc) "_"
  | inr (_, st') => slot st' "_" = slot (l_state acc) "_"
  end.
Proof. apply load_plugins_keeps_slot. by left. Qed.

Example reserved_slot_kept_run :
  slot (load empty_host (init dangling_settings booted)).2 "_"
  = Store (Inst 2 Memory).
Proof. vm_compute. reflexivity. Qed.
